(** * ChampSim virtual memory: a shallow embedding of [src/vmem.cc]

    The development follows the source file top to bottom: the address
    arithmetic of the [champsim::] helper library, the [VirtualMemory]
    constructor, the bit-slicing helpers [shamt] and [get_offset], the
    physical-page pool ([ppage_front], [ppage_pop], [available_ppages])
    and the two translation entry points [va_to_pa] and [get_pte_pa].

    Addresses are 64-bit unsigned integers, modelled as [Z] with the
    masking written out.  The two [std::map]s are [gmap]s.  A failed
    [assert] aborts the program: every operation that can reach one
    returns an [option], [None] standing for the abort. *)

From Stdlib Require Import ZArith Lia Bool List.
From stdpp Require Import gmap list.
From coqutil Require Import Z.bitblast.

Local Open Scope Z_scope.

(** ** The [champsim::] address library *)

Module champsim.

(** [champsim::address::bits]: addresses are [uint64_t]. *)
Definition address_bits : Z := 64.

(** Modelled from the spec: [champsim::bitmask] (util/bits.h) is not
    among the sources.  A mask of [w] low bits; a width that is not
    positive gives the empty mask. *)
Definition bitmask (w : Z) : Z := Z.ones (Z.max 0 w).

(** Modelled from the spec: [champsim::lg2] (util/bits.h) is not among
    the sources.  The spec writes log2(page size), log2(PTE-page size):
    the position of the highest set bit. *)
Definition lg2 (n : Z) : Z := Z.log2 n.

(** Modelled from the spec: [champsim::is_power_of_2] (util/bits.h) is
    not among the sources.  "PTE-page size ... power of two". *)
Definition is_power_of_2 (n : Z) : bool := (0 <? n) && (n =? 2 ^ Z.log2 n).

(** Arithmetic on [uint64_t] wraps around. *)
Definition wrap64 (n : Z) : Z := Z.land n (Z.ones address_bits).

(** Modelled from the spec: [champsim::ipow] (util/bits.h) is not among
    the sources.  "page size raised to the number of levels", computed
    in a 64-bit integer. *)
Definition ipow (base exp : Z) : Z := wrap64 (base ^ exp).

(** Modelled from the spec: [champsim::address_slice] (address.h) is not
    among the sources.  "Virtual/Physical Address: fixed-width bit
    vectors, sliced into a page offset and a sequence of per-level
    index fields".  A slice covers the bits [lower .. upper-1] of an
    address and stores them shifted down to bit 0. *)
Record address_slice : Type := mk_slice
  { upper : Z; lower : Z; value : Z }.

(** [address_slice{extent, val}]: the value is cut to the extent's width. *)
Definition slice_of_value (up lo v : Z) : address_slice :=
  mk_slice up lo (Z.land v (bitmask (up - lo))).

(** The bits of a slice at their place in the full address. *)
Definition in_place (a : address_slice) : Z := Z.shiftl (value a) (lower a).

(** [address_slice<E>{other}]: conversion to another extent keeps the
    bits at their absolute position. *)
Definition convert (up lo : Z) (a : address_slice) : address_slice :=
  slice_of_value up lo (Z.shiftr (in_place a) lo).

(** [champsim::address{v}]: the full extent. *)
Definition address (v : Z) : address_slice := slice_of_value address_bits 0 v.

(** [a.slice(sized_extent{lo, size})]: extent relative to [a]'s own. *)
Definition slice (a : address_slice) (lo size : Z) : address_slice :=
  convert (lower a + lo + size) (lower a + lo) a.

(** [a.slice_upper(lo)]: the bits from [lo] (relative) to the top. *)
Definition slice_upper (a : address_slice) (lo : Z) : address_slice :=
  convert (upper a) (lower a + lo) a.

(** [champsim::splice(a, b)]: the union of both extents; the bits of
    [b] where [b] has any, those of [a] elsewhere.  For a page number
    and a page offset this is the spec's "allocated page concatenated
    with the original page offset". *)
Definition splice (a b : address_slice) : address_slice :=
  let up := Z.max (upper a) (upper b) in
  let lo := Z.min (lower a) (lower b) in
  let m := Z.shiftl (bitmask (upper b - lower b)) (lower b) in
  slice_of_value up lo
    (Z.shiftr (Z.lor (Z.ldiff (in_place a) m) (in_place b)) lo).

(** [++a]: increment within the slice's width. *)
Definition incr (a : address_slice) : address_slice :=
  slice_of_value (upper a) (lower a) (value a + 1).

(** [a.to<uint64_t>()]. *)
Definition to_uint64 (a : address_slice) : Z := value a.

(** [champsim::offset(a, b)]: the signed distance from [a] to [b]. *)
Definition offset (a b : address_slice) : Z := value b - value a.

End champsim.

Import champsim.

(** ** Configuration *)

(** The [const] members of [VirtualMemory] together with the build-time
    constant [LOG2_PAGE_SIZE] (champsim_constants.h, not among the
    sources, hence a parameter).  [pte_page_size] is the size of a PTE
    page in bytes, as the constructor receives it in
    [page_table_page_size]. *)
Record config : Type := mk_config
  { LOG2_PAGE_SIZE : Z;
    pte_page_size : Z;
    pt_levels : Z;
    minor_fault_penalty : Z }.

(** [pte_entry::byte_multiple]; vmem.h has [#define PTE_BYTES 8]. *)
Definition pte_entry_byte_multiple : Z := 8.

Section VMem.

Variable cfg : config.

Local Abbreviation L := (LOG2_PAGE_SIZE cfg).

(** [champsim::page_number{a}] and [champsim::page_offset{a}]. *)
Definition page_number (a : address_slice) : address_slice :=
  convert address_bits L a.
Definition page_offset (a : address_slice) : address_slice :=
  convert L 0 a.

(** [champsim::data::pages{n}] counted in bytes. *)
Definition pages_to_bytes (n : Z) : Z := wrap64 (n * 2 ^ L).

(** Modelled from the spec: [champsim::lowest_address_for_size]
    (address.h) is not among the sources.  The pool starts "above a
    reserved low region": the first address past a region of the given
    size, taken as a page number. *)
Definition lowest_address_for_size (bytes : Z) : address_slice :=
  page_number (address bytes).

(** [VMEM_RESERVE_CAPACITY]: "reserve 1MB or one page of space". *)
Definition VMEM_RESERVE_CAPACITY : Z := Z.max (2 ^ L) (2 ^ 20).

(** The mutable members of [VirtualMemory]. *)
Record VirtualMemory : Type := mk_vmem
  { vpage_to_ppage_map : gmap (Z * Z) address_slice;
    page_table : gmap (Z * Z * Z) address_slice;
    next_pte_page : address_slice;
    active_pte_page : address_slice;
    next_ppage : address_slice;
    last_ppage : address_slice }.

(** [lg2(bytes{pte_page_size}.count())]: the PTE-page size in bytes, as the
    initialiser of [next_pte_page] converts it. *)
Definition lg2_pte : Z := lg2 (pte_page_size cfg).

(** Modelled from the spec: the unit conversion of [champsim::data::size]
    (util/units.h) is not among the sources.  [pte_page_size.count()]: the
    member is held in units of [pte_entry], 8 bytes each
    ([pte_entry::byte_multiple]), so its count is the spec's "PTE-page
    size in bytes" over 8, the number of entries of a PTE page.  The
    division is exact for every size that passes the constructor's
    assertions. *)
Definition pte_count : Z := pte_page_size cfg / pte_entry_byte_multiple.

(** [lg2(pte_page_size.count())]: the width of a level's index field. *)
Definition lg2_pte_count : Z := lg2 pte_count.

(** [VirtualMemory::VirtualMemory]: the member initialisers, then the
    three assertions in source order.  [active_pte_page] is not in the
    initialiser list and starts as page 0; the two maps start empty. *)
Definition initial_vmem : VirtualMemory :=
  {| vpage_to_ppage_map := ∅;
     page_table := ∅;
     next_pte_page := slice_of_value L lg2_pte 0;
     active_pte_page := page_number (address 0);
     next_ppage := lowest_address_for_size VMEM_RESERVE_CAPACITY;
     last_ppage :=
       lowest_address_for_size
         (pages_to_bytes (ipow pte_count (Z.land (pt_levels cfg) (Z.ones 32)))) |}.

Definition construct : option VirtualMemory :=
  let vm := initial_vmem in
  if negb (1024 <? pte_page_size cfg) then None
  else if negb (is_power_of_2 (pte_page_size cfg)) then None
  else if negb (value (next_ppage vm) <? value (last_ppage vm)) then None
  else Some vm.

(** [VirtualMemory::shamt]: unsigned arithmetic, [level - 1] included. *)
Definition shamt (level : Z) : Z :=
  wrap64 (L + lg2_pte_count * wrap64 (level - 1)).

(** [VirtualMemory::get_offset]. *)
Definition get_offset (vaddr : Z) (level : Z) : Z :=
  let lower := shamt level in
  let size := lg2_pte_count in
  to_uint64 (slice (address vaddr) lower size).

(** [VirtualMemory::available_ppages]. *)
Definition available_ppages (vm : VirtualMemory) : option Z :=
  if value (next_ppage vm) <=? value (last_ppage vm)
  then Some (offset (next_ppage vm) (last_ppage vm))
  else None.

(** [VirtualMemory::ppage_front]. *)
Definition ppage_front (vm : VirtualMemory) : option address_slice :=
  match available_ppages vm with
  | Some n => if 0 <? n then Some (next_ppage vm) else None
  | None => None
  end.

(** [VirtualMemory::ppage_pop]. *)
Definition ppage_pop (vm : VirtualMemory) : VirtualMemory :=
  {| vpage_to_ppage_map := vpage_to_ppage_map vm;
     page_table := page_table vm;
     next_pte_page := next_pte_page vm;
     active_pte_page := active_pte_page vm;
     next_ppage := incr (next_ppage vm);
     last_ppage := last_ppage vm |}.

(** [std::map::try_emplace]: the entry found or inserted, whether it
    was inserted, and the map afterwards. *)
Definition try_emplace {K} `{Countable K} {V} (m : gmap K V) (k : K) (v : V)
  : V * bool * gmap K V :=
  match m !! k with
  | Some old => (old, false, m)
  | None => (v, true, <[k := v]> m)
  end.

(** [VirtualMemory::va_to_pa].  The argument [ppage_front()] is
    evaluated before [try_emplace] looks the key up. *)
Definition va_to_pa (vm : VirtualMemory) (cpu_num vaddr : Z)
  : option (Z * Z * VirtualMemory) :=
  match ppage_front vm with
  | None => None
  | Some front =>
    let '(ppage, fault, m) :=
      try_emplace (vpage_to_ppage_map vm)
                  (cpu_num, value (page_number (address vaddr))) front in
    let vm1 :=
      {| vpage_to_ppage_map := m;
         page_table := page_table vm;
         next_pte_page := next_pte_page vm;
         active_pte_page := active_pte_page vm;
         next_ppage := next_ppage vm;
         last_ppage := last_ppage vm |} in
    let vm2 := if fault then ppage_pop vm1 else vm1 in
    let paddr := splice (page_number ppage) (page_offset (address vaddr)) in
    Some (value paddr, if fault then minor_fault_penalty cfg else 0, vm2)
  end.

(** The first statement of [get_pte_pa]: a page is taken from the pool
    whenever the PTE-page cursor reads zero. *)
Definition activate_pte_page (vm : VirtualMemory) : option VirtualMemory :=
  if value (page_offset (next_pte_page vm)) =? value (page_offset (address 0))
  then
    match ppage_front vm with
    | None => None
    | Some front =>
      Some (ppage_pop
              {| vpage_to_ppage_map := vpage_to_ppage_map vm;
                 page_table := page_table vm;
                 next_pte_page := next_pte_page vm;
                 active_pte_page := front;
                 next_ppage := next_ppage vm;
                 last_ppage := last_ppage vm |})
    end
  else Some vm.

(** The key of the PTE-location map. *)
Definition pte_key (cpu_num vaddr level : Z) : Z * Z * Z :=
  (cpu_num, level, value (slice_upper (address vaddr) (shamt level))).

(** [VirtualMemory::get_pte_pa]. *)
Definition get_pte_pa (vm : VirtualMemory) (cpu_num vaddr level : Z)
  : option (Z * Z * VirtualMemory) :=
  match activate_pte_page vm with
  | None => None
  | Some vm0 =>
    let '(ppage, fault, pt) :=
      try_emplace (page_table vm0) (pte_key cpu_num vaddr level)
                  (splice (active_pte_page vm0) (next_pte_page vm0)) in
    let vm1 :=
      {| vpage_to_ppage_map := vpage_to_ppage_map vm0;
         page_table := pt;
         next_pte_page :=
           if fault then incr (next_pte_page vm0) else next_pte_page vm0;
         active_pte_page := active_pte_page vm0;
         next_ppage := next_ppage vm0;
         last_ppage := last_ppage vm0 |} in
    let offset := get_offset vaddr level in
    let paddr :=
      convert address_bits 0
        (splice ppage
                (slice_of_value (lg2 pte_entry_byte_multiple + lg2_pte_count)
                                (lg2 pte_entry_byte_multiple) offset)) in
    Some (value paddr, if fault then minor_fault_penalty cfg else 0, vm1)
  end.

End VMem.

(** ** Names for the parts of the two translations *)

Section Derived.

Variable cfg : config.

(** The key of the VPN map: requester and virtual page number. *)
Definition vkey (cpu_num vaddr : Z) : Z * Z :=
  (cpu_num, value (page_number cfg (address vaddr))).

(** The address computed at the end of [va_to_pa]. *)
Definition va_paddr (ppage : address_slice) (vaddr : Z) : Z :=
  value (splice (page_number cfg ppage) (page_offset cfg (address vaddr))).

(** The cursor test at the head of [get_pte_pa]. *)
Definition cursor_is_zero (vm : VirtualMemory) : bool :=
  value (page_offset cfg (next_pte_page vm)) =? value (page_offset cfg (address 0)).

(** The state after a PTE page was taken from the pool. *)
Definition with_fresh_pte_page (vm : VirtualMemory) : VirtualMemory :=
  {| vpage_to_ppage_map := vpage_to_ppage_map vm;
     page_table := page_table vm;
     next_pte_page := next_pte_page vm;
     active_pte_page := next_ppage vm;
     next_ppage := incr (next_ppage vm);
     last_ppage := last_ppage vm |}.

(** The address computed at the end of [get_pte_pa]. *)
Definition pte_paddr (ppage : address_slice) (vaddr level : Z) : Z :=
  value (convert address_bits 0
           (splice ppage
              (slice_of_value (lg2 pte_entry_byte_multiple + lg2_pte_count cfg)
                              (lg2 pte_entry_byte_multiple)
                              (get_offset cfg vaddr level)))).

End Derived.

(** ** Running sequences of calls *)

(** A sequence of [va_to_pa] calls, threading the state; the results are
    the (physical address, penalty) pairs in call order. *)
Fixpoint va_to_pa_seq (cfg : config) (vm : VirtualMemory) (reqs : list (Z * Z))
  : option (list (Z * Z) * VirtualMemory) :=
  match reqs with
  | [] => Some ([], vm)
  | (cpu_num, vaddr) :: rest =>
    match va_to_pa cfg vm cpu_num vaddr with
    | None => None
    | Some (pa, pen, vm1) =>
      match va_to_pa_seq cfg vm1 rest with
      | None => None
      | Some (res, vm2) => Some ((pa, pen) :: res, vm2)
      end
    end
  end.

(** A sequence of [get_pte_pa] calls [(cpu, vaddr, level)]. *)
Fixpoint get_pte_pa_seq (cfg : config) (vm : VirtualMemory) (reqs : list (Z * Z * Z))
  : option (list (Z * Z) * VirtualMemory) :=
  match reqs with
  | [] => Some ([], vm)
  | (cpu_num, vaddr, level) :: rest =>
    match get_pte_pa cfg vm cpu_num vaddr level with
    | None => None
    | Some (pa, pen, vm1) =>
      match get_pte_pa_seq cfg vm1 rest with
      | None => None
      | Some (res, vm2) => Some ((pa, pen) :: res, vm2)
      end
    end
  end.

(** ** Predicates on configurations and states *)

(** The pool invariant of the spec, on the stored page numbers. *)
Definition pool_invariant (vm : VirtualMemory) : Prop :=
  0 <= value (next_ppage vm) <= value (last_ppage vm).

(** A slice that is a page number: extent [LOG2_PAGE_SIZE .. 63]. *)
Definition is_page_number (cfg : config) (a : address_slice) : Prop :=
  upper a = address_bits /\ lower a = LOG2_PAGE_SIZE cfg /\
  0 <= value a < 2 ^ (address_bits - LOG2_PAGE_SIZE cfg).

(** The pool as the constructor leaves it and the operations keep it. *)
Definition pool_wf (cfg : config) (vm : VirtualMemory) : Prop :=
  is_page_number cfg (next_ppage vm) /\ is_page_number cfg (last_ppage vm) /\
  value (next_ppage vm) <= value (last_ppage vm).

(** One public operation of [VirtualMemory] taking [vm] to [vm']. *)
Inductive vm_step (cfg : config) (vm : VirtualMemory) : VirtualMemory -> Prop :=
| step_va_to_pa cpu_num vaddr pa pen vm' :
    va_to_pa cfg vm cpu_num vaddr = Some (pa, pen, vm') -> vm_step cfg vm vm'
| step_get_pte_pa cpu_num vaddr level pa pen vm' :
    get_pte_pa cfg vm cpu_num vaddr level = Some (pa, pen, vm') -> vm_step cfg vm vm'
| step_available_ppages n :
    available_ppages vm = Some n -> vm_step cfg vm vm.

(** The free pages of the pool, as [available_ppages] counts them. *)
Definition free_pages (vm : VirtualMemory) : Z :=
  value (last_ppage vm) - value (next_ppage vm).

(** ** Counting distinct pages in a sequence of translations *)

(** Position of the first occurrence of [x] in [l]. *)
Fixpoint index_of {A} `{EqDecision A} (x : A) (l : list A) : option nat :=
  match l with
  | [] => None
  | y :: l' => if decide (x = y) then Some 0%nat else S <$> index_of x l'
  end.

(** The distinct elements of [ks] in the order of their first occurrence,
    appended to those already [seen]. *)
Fixpoint first_seen {A} `{EqDecision A} (seen : list A) (ks : list A) : list A :=
  match ks with
  | [] => seen
  | k :: ks' =>
    if bool_decide (k ∈ seen) then first_seen seen ks'
    else first_seen (seen ++ [k]) ks'
  end.

(** The VPN-map keys of a sequence of [(cpu, vaddr)] requests. *)
Definition request_keys (cfg : config) (reqs : list (Z * Z)) : list (Z * Z) :=
  map (fun r => vkey cfg (fst r) (snd r)) reqs.

(** The [k]-th page of a pool that starts at page [base] (counting from 0). *)
Definition pool_page (cfg : config) (base : Z) (k : nat) : address_slice :=
  mk_slice address_bits (LOG2_PAGE_SIZE cfg) (base + Z.of_nat k).

(** The VPN map holds exactly the keys [seen] so far, the [j]-th of them
    on the [j]-th pool page, and the pool has moved past those pages. *)
Definition translated (cfg : config) (base : Z) (seen : list (Z * Z))
    (vm : VirtualMemory) : Prop :=
  0 <= base /\ pool_wf cfg vm /\
  value (next_ppage vm) = base + Z.of_nat (length seen) /\
  forall k, vpage_to_ppage_map vm !! k = pool_page cfg base <$> index_of k seen.

(** ** Reassembling an address from its fields *)

(** The page offset plus the index fields of levels [1 .. levels], each
    put back at its [shamt]. *)
Fixpoint reassemble (cfg : config) (vaddr : Z) (levels : nat) : Z :=
  match levels with
  | O => value (page_offset cfg (address vaddr))
  | S m =>
    reassemble cfg vaddr m
    + get_offset cfg vaddr (Z.of_nat (S m)) * 2 ^ shamt cfg (Z.of_nat (S m))
  end.

(** ** The page-table walker *)

Module ptw.

(** Modelled from the spec: the page structure cache (ptw.h, ptw.cc) is
    not among the sources.  "Fixed sets x ways, keyed by the
    virtual-address bits that are common to every address sharing this
    level's page-table path (i.e. all index bits at or above this
    level)", "least-recently-used replacement within a set".  A set is a
    list of (tag, PTE address) entries, most recently filled first. *)
Record PageStructureCache : Type := mk_pscl
  { pscl_sets : Z;
    pscl_ways : nat;
    pscl_shamt : Z;
    pscl_lines : gmap Z (list (Z * Z)) }.

Definition pscl_tag (c : PageStructureCache) (vaddr : Z) : Z :=
  Z.shiftr (wrap64 vaddr) (pscl_shamt c).

Definition pscl_index (c : PageStructureCache) (vaddr : Z) : Z :=
  pscl_tag c vaddr mod pscl_sets c.

Definition pscl_line (c : PageStructureCache) (vaddr : Z) : list (Z * Z) :=
  default [] (pscl_lines c !! pscl_index c vaddr).

(** Modelled from the spec: [probe] ([check_hit] in the tests) of the
    page structure cache, which is not among the sources.  "read-only
    lookup; does not alter replacement ordering". *)
Definition probe (c : PageStructureCache) (vaddr : Z) : option Z :=
  snd <$> find (fun e => fst e =? pscl_tag c vaddr) (pscl_line c vaddr).

(** Modelled from the spec: [fill] of the page structure cache, which is
    not among the sources.  "inserts or updates the entry for the
    computed set; on set overflow evicts the least-recently-used entry". *)
Definition fill (c : PageStructureCache) (vaddr paddr : Z) : PageStructureCache :=
  let tag := pscl_tag c vaddr in
  let others := filter (fun e => negb (fst e =? tag)) (pscl_line c vaddr) in
  {| pscl_sets := pscl_sets c;
     pscl_ways := pscl_ways c;
     pscl_shamt := pscl_shamt c;
     pscl_lines :=
       <[pscl_index c vaddr := take (pscl_ways c) ((tag, paddr) :: others)]>
         (pscl_lines c) |}.

(** Modelled from the spec: the walker (ptw.h, ptw.cc) is not among the
    sources.  It owns the virtual memory it walks, one cache "per
    intermediate level (levels above the leaf)", keyed here by level
    number, and the downstream port, of which the addresses issued so far
    are kept (the mock port of the tests records them the same way). *)
Record PageTableWalker : Type := mk_ptw
  { ptw_vmem : VirtualMemory;
    ptw_pscl : gmap nat PageStructureCache;
    ptw_issued : list Z }.

Definition probe_level (w : PageTableWalker) (level : nat) (vaddr : Z) : option Z :=
  match ptw_pscl w !! level with
  | Some c => probe c vaddr
  | None => None
  end.

(** The intermediate levels, root first. *)
Definition scan_order (levels : nat) : list nat := rev (seq 2 (levels - 1)).

(** Modelled from the spec: step 1 of the walker, which is not among the
    sources.  "scan levels from root downward; at each level, probe that
    level's PSCL"; the last hit of the scan is the deepest level already
    resolved, and the walk resumes at the level below it ("for each level
    strictly below", "or all levels, if none hit"). *)
Definition first_level_to_fetch (w : PageTableWalker) (levels : nat) (vaddr : Z) : nat :=
  fold_left (fun acc level =>
               match probe_level w level vaddr with
               | Some _ => (level - 1)%nat
               | None => acc
               end)
            (scan_order levels) levels.

Section Walk.

Variable cfg : config.

(** Latency of one downstream memory read. *)
Variable mem_latency : Z.

(** Modelled from the spec: steps 2 and 3 of the walker, which is not
    among the sources.  "issue a memory-read request to the downstream
    port at the address returned by pte_address(requester, vaddr,
    level)", adding its penalty to the latency; "on each downstream
    completion, fill that level's PSCL with the resolved address and
    proceed to the next lower level".  Level 1 has no cache to fill. *)
Fixpoint walk_levels (level : nat) (w : PageTableWalker) (cpu_num vaddr : Z)
  : option (Z * PageTableWalker) :=
  match level with
  | O => Some (0, w)
  | S below =>
    match get_pte_pa cfg (ptw_vmem w) cpu_num vaddr (Z.of_nat level) with
    | None => None
    | Some (pa, pen, vm1) =>
      let w1 :=
        {| ptw_vmem := vm1;
           ptw_pscl := alter (fun c => fill c vaddr pa) level (ptw_pscl w);
           ptw_issued := ptw_issued w ++ [pa] |} in
      match walk_levels below w1 cpu_num vaddr with
      | None => None
      | Some (lat, w2) => Some (pen + mem_latency + lat, w2)
      end
    end
  end.

(** Modelled from the spec: one translation request through the walker,
    which is not among the sources.  Steps 1 to 3, then step 4: "after
    level 1 completes, call VirtualMemory.translate to obtain the final
    data physical address and its possible fault penalty; sum all
    penalties plus elapsed downstream latencies". *)
Definition walk (w : PageTableWalker) (cpu_num vaddr : Z)
  : option (Z * Z * PageTableWalker) :=
  let levels := Z.to_nat (pt_levels cfg) in
  match walk_levels (first_level_to_fetch w levels vaddr) w cpu_num vaddr with
  | None => None
  | Some (lat, w1) =>
    match va_to_pa cfg (ptw_vmem w1) cpu_num vaddr with
    | None => None
    | Some (pa, pen, vm2) =>
      Some (pa, lat + pen,
            {| ptw_vmem := vm2; ptw_pscl := ptw_pscl w1; ptw_issued := ptw_issued w1 |})
    end
  end.

End Walk.

(** A walker with empty caches of the same geometry at every
    intermediate level. *)
Definition new_walker (cfg : config) (sets : Z) (ways : nat) (vm : VirtualMemory)
  : PageTableWalker :=
  {| ptw_vmem := vm;
     ptw_pscl :=
       list_to_map
         (map (fun level => (level, mk_pscl sets ways (shamt cfg (Z.of_nat level)) ∅))
              (seq 2 (Z.to_nat (pt_levels cfg) - 1)));
     ptw_issued := [] |}.

End ptw.

Import ptw.

(** ** Concrete configurations and inputs *)

(** 4 KiB pages throughout.  Two levels of 2 KiB PTE pages. *)
Definition cfg_2k : config := mk_config 12 2048 2 200.

(** Four levels of 4 KiB PTE pages. *)
Definition cfg_4k : config := mk_config 12 4096 4 200.

(** The same with no minor-fault penalty. *)
Definition cfg_4k_free : config := mk_config 12 4096 4 0.

(** One level of 4 KiB PTE pages, 512 entries each: a pool of
    512 - 256 = 256 pages. *)
Definition cfg_one_level : config := mk_config 12 4096 1 200.

(** Five levels of 4 KiB PTE pages, penalty of one cycle. *)
Definition cfg_five : config := mk_config 12 4096 5 1.

(** A virtual memory with nothing mapped and the pool [256, 2^20). *)
Definition vm_five : VirtualMemory :=
  {| vpage_to_ppage_map := ∅;
     page_table := ∅;
     next_pte_page := slice_of_value 12 12 0;
     active_pte_page := mk_slice 64 12 0;
     next_ppage := mk_slice 64 12 256;
     last_ppage := mk_slice 64 12 1048576 |}.

(** Requester 0 touching the first [n] virtual pages, one address each. *)
Definition touch_pages (n : nat) : list (Z * Z) :=
  map (fun i => (0, Z.of_nat i * 4096)) (seq 0 n).

(** ** Runs, reachable states and PTE-page slots *)

(** Any number of public operations in a row. *)
Inductive vm_steps (cfg : config) : VirtualMemory -> VirtualMemory -> Prop :=
| steps_refl vm : vm_steps cfg vm vm
| steps_cons vm vm1 vm2 :
    vm_step cfg vm vm1 -> vm_steps cfg vm1 vm2 -> vm_steps cfg vm vm2.

(** States reachable from a successful construction. *)
Inductive reachable (cfg : config) : VirtualMemory -> Prop :=
| reach_construct vm : construct cfg = Some vm -> reachable cfg vm
| reach_step vm vm' : reachable cfg vm -> vm_step cfg vm vm' -> reachable cfg vm'.

(** PTE pages that fit into one pool page. *)
Definition pte_pages_per_page (cfg : config) : Z :=
  2 ^ (LOG2_PAGE_SIZE cfg - lg2_pte cfg).

(** A slice that is a PTE-page cursor: extent [lg2_pte .. LOG2_PAGE_SIZE-1]. *)
Definition is_pte_cursor (cfg : config) (a : address_slice) : Prop :=
  upper a = LOG2_PAGE_SIZE cfg /\ lower a = lg2_pte cfg /\
  0 <= value a < pte_pages_per_page cfg.

(** A slice that is a PTE-page slot: extent [lg2_pte .. 63]. *)
Definition is_pte_slot (cfg : config) (a : address_slice) : Prop :=
  upper a = address_bits /\ lower a = lg2_pte cfg /\
  0 <= value a < 2 ^ (address_bits - lg2_pte cfg).

(** The pool page a PTE-page slot lies in. *)
Definition slot_page (cfg : config) (s : address_slice) : Z :=
  value s / pte_pages_per_page cfg.

(** What every reachable state satisfies; [base] is the first page of the
    pool as constructed. *)
Record vm_inv (cfg : config) (base : Z) (vm : VirtualMemory) : Prop := mk_vm_inv
  { inv_pool : pool_wf cfg vm;
    inv_base : 0 <= base <= value (next_ppage vm);
    inv_cursor : is_pte_cursor cfg (next_pte_page vm);
    inv_active : is_page_number cfg (active_pte_page vm) /\
                 value (active_pte_page vm) < value (next_ppage vm) /\
                 (value (next_pte_page vm) <> 0 -> base <= value (active_pte_page vm));
    inv_data : forall k p, vpage_to_ppage_map vm !! k = Some p ->
                 is_page_number cfg p /\ base <= value p < value (next_ppage vm) /\
                 value p <> value (active_pte_page vm);
    inv_data_inj : forall k1 k2 p1 p2,
                 vpage_to_ppage_map vm !! k1 = Some p1 ->
                 vpage_to_ppage_map vm !! k2 = Some p2 ->
                 value p1 = value p2 -> k1 = k2;
    inv_slot : forall k s, page_table vm !! k = Some s ->
                 is_pte_slot cfg s /\
                 base <= slot_page cfg s < value (next_ppage vm) /\
                 (value (next_pte_page vm) <> 0 ->
                  value s < value (active_pte_page vm) * pte_pages_per_page cfg
                            + value (next_pte_page vm));
    inv_slot_inj : forall k1 k2 s1 s2,
                 page_table vm !! k1 = Some s1 ->
                 page_table vm !! k2 = Some s2 ->
                 value s1 = value s2 -> k1 = k2;
    inv_disjoint : forall k p k' s,
                 vpage_to_ppage_map vm !! k = Some p ->
                 page_table vm !! k' = Some s ->
                 slot_page cfg s <> value p }.

(** The PTE-location keys of a sequence of [(cpu, vaddr, level)] requests. *)
Definition pte_request_keys (cfg : config) (reqs : list (Z * Z * Z)) : list (Z * Z * Z) :=
  map (fun r => pte_key cfg (fst (fst r)) (snd (fst r)) (snd r)) reqs.

(** The [k]-th PTE-page slot of a pool that starts at page [base]. *)
Definition pool_slot (cfg : config) (base : Z) (k : Z) : address_slice :=
  mk_slice address_bits (lg2_pte cfg) (base * pte_pages_per_page cfg + k).

(** [k] slots were written since the pool stood at page [base] with the
    cursor at zero. *)
Definition slots_filled (cfg : config) (base k : Z) (vm : VirtualMemory) : Prop :=
  pool_wf cfg vm /\ is_pte_cursor cfg (next_pte_page vm) /\
  is_page_number cfg (active_pte_page vm) /\
  value (next_pte_page vm) = k mod pte_pages_per_page cfg /\
  value (next_ppage vm)
    = base + (k + pte_pages_per_page cfg - 1) / pte_pages_per_page cfg /\
  (k mod pte_pages_per_page cfg <> 0 ->
   value (active_pte_page vm) = base + k / pte_pages_per_page cfg).

(** ** The constructor's warnings *)

(** The constructor's [required_bits] (computed after the assertions). *)
Definition required_bits (cfg : config) (vm : VirtualMemory) : Z :=
  LOG2_PAGE_SIZE cfg + lg2 (to_uint64 (last_ppage vm)).

(** The constructor's first warning: [required_bits > champsim::address::bits]. *)
Definition warns_address_bits (cfg : config) (vm : VirtualMemory) : bool :=
  address_bits <? required_bits cfg vm.

(** The constructor's second warning: [required_bits > lg2(dram.size())],
    with the DRAM size in bytes as a parameter. *)
Definition warns_dram_size (cfg : config) (vm : VirtualMemory) (dram_size : Z) : bool :=
  lg2 dram_size <? required_bits cfg vm.

(** ** Bit-level automation *)

Ltac bits :=
  Z.bitblast; subst;
  repeat rewrite Z.testbit_neg_r by lia;
  rewrite ?andb_false_r, ?andb_false_l, ?andb_true_r, ?orb_false_r; try reflexivity.

Ltac bits_deep :=
  Z.bitblast; repeat (progress Z.bitblast_core); subst;
  repeat rewrite Z.testbit_neg_r by lia;
  rewrite ?andb_false_r, ?andb_false_l, ?andb_true_r, ?orb_false_r, ?orb_false_l;
  try reflexivity; try (f_equal; lia).

(** ** Basic facts on slices *)

Lemma bitmask_nonneg w : 0 <= bitmask w.
Proof. unfold bitmask. rewrite Z.ones_equiv. pose proof (Z.pow_pos_nonneg 2 (Z.max 0 w)). lia. Qed.

Lemma land_ones_bounds x k : 0 <= x -> 0 <= k -> 0 <= Z.land x (Z.ones k) <= x.
Proof.
  intros Hx Hk. rewrite Z.land_ones by lia.
  pose proof (Z.pow_pos_nonneg 2 k ltac:(lia) Hk).
  split; [apply Z.mod_pos_bound; lia | apply Z.mod_le; lia].
Qed.

Lemma slice_of_value_nonneg up lo v : 0 <= value (slice_of_value up lo v).
Proof. simpl. apply Z.land_nonneg. right. apply bitmask_nonneg. Qed.

Lemma incr_bounds a : 0 <= value a -> 0 <= value (incr a) <= value a + 1.
Proof. intros H. simpl. unfold bitmask. apply land_ones_bounds; lia. Qed.

(** ** The pool *)

Lemma available_ppages_Some vm n :
  available_ppages vm = Some n <->
  value (next_ppage vm) <= value (last_ppage vm) /\
  n = value (last_ppage vm) - value (next_ppage vm).
Proof.
  unfold available_ppages, offset.
  destruct (Z.leb_spec (value (next_ppage vm)) (value (last_ppage vm))); split.
  - intros [= <-]. auto.
  - intros [_ ->]. reflexivity.
  - discriminate.
  - lia.
Qed.

Lemma ppage_front_Some vm f :
  ppage_front vm = Some f <->
  f = next_ppage vm /\ value (next_ppage vm) < value (last_ppage vm).
Proof.
  unfold ppage_front, available_ppages, offset.
  destruct (Z.leb_spec (value (next_ppage vm)) (value (last_ppage vm))).
  - destruct (Z.ltb_spec 0 (value (last_ppage vm) - value (next_ppage vm))); split.
    + intros [= <-]. split; [reflexivity | lia].
    + intros [-> _]. reflexivity.
    + discriminate.
    + lia.
  - split; [discriminate | lia].
Qed.

Lemma ppage_front_None vm :
  ppage_front vm = None <-> value (last_ppage vm) <= value (next_ppage vm).
Proof.
  destruct (ppage_front vm) as [f|] eqn:E.
  - apply ppage_front_Some in E. split; [discriminate | lia].
  - split; [intros _ | reflexivity].
    destruct (Z.le_gt_cases (value (last_ppage vm)) (value (next_ppage vm))); [assumption |].
    assert (ppage_front vm = Some (next_ppage vm)) by (apply ppage_front_Some; auto).
    congruence.
Qed.

(** ** The two outcomes of [try_emplace] *)

Lemma try_emplace_hit {K} `{Countable K} {V} (m : gmap K V) k v old :
  m !! k = Some old -> try_emplace m k v = (old, false, m).
Proof. intros E. unfold try_emplace. rewrite E. reflexivity. Qed.

Lemma try_emplace_miss {K} `{Countable K} {V} (m : gmap K V) k v :
  m !! k = None -> try_emplace m k v = (v, true, <[k := v]> m).
Proof. intros E. unfold try_emplace. rewrite E. reflexivity. Qed.

(** ** [va_to_pa], case by case *)

Section VaToPa.

Variable cfg : config.

Lemma va_to_pa_abort vm cpu_num vaddr :
  value (last_ppage vm) <= value (next_ppage vm) ->
  va_to_pa cfg vm cpu_num vaddr = None.
Proof.
  intros Hle. apply ppage_front_None in Hle.
  unfold va_to_pa. rewrite Hle. reflexivity.
Qed.

Lemma va_to_pa_hit vm cpu_num vaddr p :
  value (next_ppage vm) < value (last_ppage vm) ->
  vpage_to_ppage_map vm !! vkey cfg cpu_num vaddr = Some p ->
  va_to_pa cfg vm cpu_num vaddr = Some (va_paddr cfg p vaddr, 0, vm).
Proof.
  intros Hlt Hk.
  assert (Hf : ppage_front vm = Some (next_ppage vm)) by (apply ppage_front_Some; auto).
  unfold va_to_pa. rewrite Hf.
  unfold vkey in Hk. rewrite (try_emplace_hit _ _ _ _ Hk).
  destruct vm. reflexivity.
Qed.

Lemma va_to_pa_miss vm cpu_num vaddr :
  value (next_ppage vm) < value (last_ppage vm) ->
  vpage_to_ppage_map vm !! vkey cfg cpu_num vaddr = None ->
  va_to_pa cfg vm cpu_num vaddr =
  Some (va_paddr cfg (next_ppage vm) vaddr, minor_fault_penalty cfg,
        {| vpage_to_ppage_map :=
             <[vkey cfg cpu_num vaddr := next_ppage vm]> (vpage_to_ppage_map vm);
           page_table := page_table vm;
           next_pte_page := next_pte_page vm;
           active_pte_page := active_pte_page vm;
           next_ppage := incr (next_ppage vm);
           last_ppage := last_ppage vm |}).
Proof.
  intros Hlt Hk.
  assert (Hf : ppage_front vm = Some (next_ppage vm)) by (apply ppage_front_Some; auto).
  unfold va_to_pa. rewrite Hf.
  unfold vkey in Hk. rewrite (try_emplace_miss _ _ _ Hk).
  reflexivity.
Qed.

(** Whatever [va_to_pa] returns, the pool moved by at most one page and
    only forward. *)
Lemma va_to_pa_pool vm cpu_num vaddr pa pen vm' :
  va_to_pa cfg vm cpu_num vaddr = Some (pa, pen, vm') ->
  value (next_ppage vm) < value (last_ppage vm) /\
  last_ppage vm' = last_ppage vm /\
  (next_ppage vm' = next_ppage vm \/ next_ppage vm' = incr (next_ppage vm)).
Proof.
  intros E.
  destruct (Z.le_gt_cases (value (last_ppage vm)) (value (next_ppage vm))) as [Hle|Hlt].
  { rewrite va_to_pa_abort in E by assumption. discriminate. }
  split; [assumption |].
  destruct (vpage_to_ppage_map vm !! vkey cfg cpu_num vaddr) as [p|] eqn:Hk.
  - rewrite (va_to_pa_hit _ _ _ _ Hlt Hk) in E. injection E as <- <- <-. auto.
  - rewrite (va_to_pa_miss _ _ _ Hlt Hk) in E. injection E as <- <- <-. auto.
Qed.

End VaToPa.

(** ** [get_pte_pa], case by case *)

Section GetPtePa.

Variable cfg : config.

Lemma activate_keep vm :
  cursor_is_zero cfg vm = false -> activate_pte_page cfg vm = Some vm.
Proof. unfold activate_pte_page, cursor_is_zero. intros ->. reflexivity. Qed.

Lemma activate_fresh vm :
  cursor_is_zero cfg vm = true ->
  value (next_ppage vm) < value (last_ppage vm) ->
  activate_pte_page cfg vm = Some (with_fresh_pte_page vm).
Proof.
  unfold activate_pte_page, cursor_is_zero. intros -> Hlt.
  assert (Hf : ppage_front vm = Some (next_ppage vm)) by (apply ppage_front_Some; auto).
  rewrite Hf. reflexivity.
Qed.

Lemma activate_abort vm :
  cursor_is_zero cfg vm = true ->
  value (last_ppage vm) <= value (next_ppage vm) ->
  activate_pte_page cfg vm = None.
Proof.
  unfold activate_pte_page, cursor_is_zero. intros -> Hle.
  apply ppage_front_None in Hle. rewrite Hle. reflexivity.
Qed.

(** What [activate_pte_page] can do to a state. *)
Lemma activate_Some vm vm0 :
  activate_pte_page cfg vm = Some vm0 ->
  (cursor_is_zero cfg vm = false /\ vm0 = vm) \/
  (cursor_is_zero cfg vm = true /\ value (next_ppage vm) < value (last_ppage vm) /\
   vm0 = with_fresh_pte_page vm).
Proof.
  intros E. destruct (cursor_is_zero cfg vm) eqn:Hc.
  - destruct (Z.le_gt_cases (value (last_ppage vm)) (value (next_ppage vm))) as [Hle|Hlt].
    + rewrite activate_abort in E by assumption. discriminate.
    + rewrite activate_fresh in E by assumption. injection E as <-. auto.
  - rewrite activate_keep in E by assumption. injection E as <-. auto.
Qed.

Lemma activate_page_table vm vm0 :
  activate_pte_page cfg vm = Some vm0 ->
  page_table vm0 = page_table vm /\
  vpage_to_ppage_map vm0 = vpage_to_ppage_map vm /\
  next_pte_page vm0 = next_pte_page vm /\
  last_ppage vm0 = last_ppage vm.
Proof. intros E. apply activate_Some in E as [[_ ->]|(_ & _ & ->)]; auto. Qed.

(** Enough pool for the head of [get_pte_pa]. *)
Lemma activate_total vm :
  value (next_ppage vm) < value (last_ppage vm) ->
  exists vm0, activate_pte_page cfg vm = Some vm0.
Proof.
  intros Hlt. destruct (cursor_is_zero cfg vm) eqn:Hc.
  - eexists. apply activate_fresh; assumption.
  - eexists. apply activate_keep; assumption.
Qed.

Lemma get_pte_pa_abort vm cpu_num vaddr level :
  activate_pte_page cfg vm = None ->
  get_pte_pa cfg vm cpu_num vaddr level = None.
Proof. intros E. unfold get_pte_pa. rewrite E. reflexivity. Qed.

Lemma get_pte_pa_hit vm vm0 cpu_num vaddr level p :
  activate_pte_page cfg vm = Some vm0 ->
  page_table vm !! pte_key cfg cpu_num vaddr level = Some p ->
  get_pte_pa cfg vm cpu_num vaddr level = Some (pte_paddr cfg p vaddr level, 0, vm0).
Proof.
  intros E Hk. unfold get_pte_pa. rewrite E.
  destruct (activate_page_table _ _ E) as (Hpt & _).
  rewrite <- Hpt in Hk. rewrite (try_emplace_hit _ _ _ _ Hk).
  destruct vm0. reflexivity.
Qed.

Lemma get_pte_pa_miss vm vm0 cpu_num vaddr level :
  activate_pte_page cfg vm = Some vm0 ->
  page_table vm !! pte_key cfg cpu_num vaddr level = None ->
  get_pte_pa cfg vm cpu_num vaddr level =
  Some (pte_paddr cfg (splice (active_pte_page vm0) (next_pte_page vm0)) vaddr level,
        minor_fault_penalty cfg,
        {| vpage_to_ppage_map := vpage_to_ppage_map vm0;
           page_table :=
             <[pte_key cfg cpu_num vaddr level :=
                 splice (active_pte_page vm0) (next_pte_page vm0)]> (page_table vm0);
           next_pte_page := incr (next_pte_page vm0);
           active_pte_page := active_pte_page vm0;
           next_ppage := next_ppage vm0;
           last_ppage := last_ppage vm0 |}).
Proof.
  intros E Hk. unfold get_pte_pa. rewrite E.
  destruct (activate_page_table _ _ E) as (Hpt & _).
  rewrite <- Hpt in Hk. rewrite (try_emplace_miss _ _ _ Hk).
  reflexivity.
Qed.

(** Whatever [get_pte_pa] returns, the pool moved by at most one page. *)
Lemma get_pte_pa_pool vm cpu_num vaddr level pa pen vm' :
  get_pte_pa cfg vm cpu_num vaddr level = Some (pa, pen, vm') ->
  last_ppage vm' = last_ppage vm /\
  (next_ppage vm' = next_ppage vm \/
   (next_ppage vm' = incr (next_ppage vm) /\
    value (next_ppage vm) < value (last_ppage vm))).
Proof.
  intros E.
  destruct (activate_pte_page cfg vm) as [vm0|] eqn:Ha.
  2:{ rewrite get_pte_pa_abort in E by assumption. discriminate. }
  assert (Hpool : last_ppage vm0 = last_ppage vm /\
                  (next_ppage vm0 = next_ppage vm \/
                   (next_ppage vm0 = incr (next_ppage vm) /\
                    value (next_ppage vm) < value (last_ppage vm)))).
  { apply activate_Some in Ha as [[_ ->]|(_ & Hlt & ->)]; simpl; auto. }
  destruct (page_table vm !! pte_key cfg cpu_num vaddr level) as [p|] eqn:Hk.
  - rewrite (get_pte_pa_hit _ _ _ _ _ _ Ha Hk) in E. injection E as <- <- <-. exact Hpool.
  - rewrite (get_pte_pa_miss _ _ _ _ _ Ha Hk) in E. injection E as <- <- <-. exact Hpool.
Qed.

(** With a free page in the pool [get_pte_pa] returns. *)
Lemma get_pte_pa_total vm cpu_num vaddr level :
  value (next_ppage vm) < value (last_ppage vm) ->
  exists pa pen vm', get_pte_pa cfg vm cpu_num vaddr level = Some (pa, pen, vm').
Proof.
  intros Hlt. destruct (activate_total vm Hlt) as [vm0 Ha].
  destruct (page_table vm !! pte_key cfg cpu_num vaddr level) as [p|] eqn:Hk.
  - do 3 eexists. apply (get_pte_pa_hit _ _ _ _ _ _ Ha Hk).
  - do 3 eexists. apply (get_pte_pa_miss _ _ _ _ _ Ha Hk).
Qed.

End GetPtePa.

(** ** Construction *)

Lemma is_power_of_2_spec n :
  is_power_of_2 n = true <-> exists k, 0 <= k /\ n = 2 ^ k.
Proof.
  unfold is_power_of_2. rewrite andb_true_iff, Z.ltb_lt, Z.eqb_eq. split.
  - intros [Hpos Heq]. exists (Z.log2 n). split; [apply Z.log2_nonneg | exact Heq].
  - intros (k & Hk & ->). split.
    + apply Z.pow_pos_nonneg; lia.
    + rewrite Z.log2_pow2 by assumption. reflexivity.
Qed.

Lemma construct_Some cfg vm :
  construct cfg = Some vm ->
  vm = initial_vmem cfg /\ 1024 < pte_page_size cfg /\
  is_power_of_2 (pte_page_size cfg) = true /\
  value (next_ppage vm) < value (last_ppage vm).
Proof.
  unfold construct.
  destruct (Z.ltb_spec 1024 (pte_page_size cfg)); cbn [negb]; [| discriminate].
  destruct (is_power_of_2 (pte_page_size cfg)); cbn [negb]; [| discriminate].
  destruct (Z.ltb_spec (value (next_ppage (initial_vmem cfg)))
                       (value (last_ppage (initial_vmem cfg)))); cbn [negb]; [| discriminate].
  intros [= <-]. auto.
Qed.

Lemma initial_next_nonneg cfg : 0 <= value (next_ppage (initial_vmem cfg)).
Proof. apply slice_of_value_nonneg. Qed.

(** ** The pool invariant *)

Lemma pool_invariant_step cfg vm vm' :
  pool_invariant vm -> vm_step cfg vm vm' -> pool_invariant vm'.
Proof.
  unfold pool_invariant. intros [H0 Hle] Hstep.
  pose proof (incr_bounds (next_ppage vm) H0) as Hi.
  destruct Hstep as [cpu_num vaddr pa pen vm' E | cpu_num vaddr level pa pen vm' E | n E].
  - apply va_to_pa_pool in E as (Hlt & -> & [-> | ->]); lia.
  - apply get_pte_pa_pool in E as (-> & [-> | [-> Hlt]]); lia.
  - lia.
Qed.

(** C5: [next_ppage <= last_ppage] holds after construction and is kept
    by [va_to_pa], [get_pte_pa] and [available_ppages]; under it
    [available_ppages] returns [last_ppage - next_ppage], which is not
    negative; and when that count is positive the assertion of
    [ppage_front] holds, so [ppage_front] returns the next pool page. *)
Theorem pool_invariant_preserved (cfg : config) :
  (forall vm, construct cfg = Some vm -> pool_invariant vm) /\
  (forall vm vm', pool_invariant vm -> vm_step cfg vm vm' -> pool_invariant vm') /\
  (forall vm, pool_invariant vm ->
     available_ppages vm = Some (value (last_ppage vm) - value (next_ppage vm)) /\
     0 <= value (last_ppage vm) - value (next_ppage vm)) /\
  (forall vm n, available_ppages vm = Some n -> 0 < n ->
     ppage_front vm = Some (next_ppage vm)).
Proof.
  split; [| split; [| split]].
  - intros vm E. apply construct_Some in E as (-> & _ & _ & Hlt).
    pose proof (initial_next_nonneg cfg). unfold pool_invariant. lia.
  - apply pool_invariant_step.
  - intros vm [H0 Hle]. split; [| lia].
    apply available_ppages_Some. auto.
  - intros vm n E Hn. apply available_ppages_Some in E as [Hle ->].
    apply ppage_front_Some. split; [reflexivity | lia].
Qed.

(** ** Values of the slices used by the translations *)

Section Bits.
Variable cfg : config.
Local Abbreviation L := (LOG2_PAGE_SIZE cfg).
Hypothesis HL : 0 <= L <= 64.

Lemma value_address v : value (address v) = v mod 2 ^ 64.
Proof. unfold address, slice_of_value, bitmask, address_bits. simpl value. change (Z.max 0 (64 - 0)) with 64. apply Z.land_ones. lia. Qed.

Lemma value_page_number_address v :
  value (page_number cfg (address v)) = (v mod 2 ^ 64) / 2 ^ L.
Proof.
  unfold page_number, convert, in_place. rewrite value_address.
  unfold address; simpl lower. unfold slice_of_value; simpl value.
  rewrite Z.shiftl_0_r, Z.shiftr_div_pow2 by lia.
  unfold bitmask, address_bits. rewrite Z.max_r by lia. rewrite Z.land_ones by lia.
  apply Z.mod_small.
  pose proof (Z.mod_pos_bound v (2^64) ltac:(lia)).
  split. { apply Z.div_pos; [lia | apply Z.pow_pos_nonneg; lia]. }
  apply Z.div_lt_upper_bound. { apply Z.pow_pos_nonneg; lia. }
  rewrite <- Z.pow_add_r by lia. replace (L + (64 - L)) with 64 by lia. lia.
Qed.

Lemma value_page_offset_address v :
  value (page_offset cfg (address v)) = v mod 2 ^ L.
Proof.
  unfold page_offset, convert, in_place. rewrite value_address.
  unfold address; simpl lower. unfold slice_of_value; simpl value.
  rewrite Z.shiftl_0_r, Z.shiftr_0_r.
  unfold bitmask. rewrite Z.sub_0_r, Z.max_r by lia. rewrite Z.land_ones by lia.
  rewrite <- !Z.land_ones by lia.
  pose proof HL as [HL0 HL1].
  bits.
Qed.

Lemma page_number_idem p : is_page_number cfg p -> page_number cfg p = p.
Proof.
  intros (Hu & Hl & Hv). destruct p as [up lo v]. simpl in *. subst up lo.
  unfold page_number, convert, in_place, slice_of_value. simpl. f_equal.
  unfold bitmask, address_bits in *. rewrite Z.max_r by lia.
  rewrite Z.land_ones by lia.
  rewrite Z.shiftr_shiftl_l by lia. rewrite Z.sub_diag, Z.shiftl_0_r.
  apply Z.mod_small. lia.
Qed.

Lemma va_paddr_value p v :
  is_page_number cfg p -> va_paddr cfg p v = value p * 2 ^ L + v mod 2 ^ L.
Proof.
  intros Hp. unfold va_paddr. rewrite (page_number_idem p Hp).
  destruct Hp as (Hu & Hl & Hv).
  pose proof (value_page_offset_address v) as Hoff.
  unfold splice, in_place.
  replace (upper (page_offset cfg (address v))) with L by reflexivity.
  replace (lower (page_offset cfg (address v))) with 0 by reflexivity.
  rewrite Hoff, Hu, Hl.
  unfold slice_of_value; simpl value. unfold bitmask, address_bits in *.
  rewrite (Z.min_r L 0), (Z.max_l 64 L) by lia. rewrite !Z.sub_0_r, !Z.max_r by lia.
  rewrite !Z.shiftl_0_r, Z.shiftr_0_r.
  assert (H2 : 0 < 2 ^ L) by (apply Z.pow_pos_nonneg; lia).
  pose proof (Z.mod_pos_bound v (2 ^ L) H2) as Hm.
  assert (Hsum : Z.lor (Z.ldiff (Z.shiftl (value p) L) (Z.ones L)) (v mod 2 ^ L)
                 = value p * 2 ^ L + v mod 2 ^ L).
  pose proof HL as [HL0 HL1].
  { assert (Hd : Z.ldiff (Z.shiftl (value p) L) (Z.ones L) = Z.shiftl (value p) L)
      by bits.
    rewrite Hd, Z.or_to_plus.
    - rewrite Z.shiftl_mul_pow2 by lia. reflexivity.
    - rewrite <- Z.land_ones by lia. bits. }
  rewrite Hsum. rewrite Z.land_ones by lia. apply Z.mod_small.
  assert (2 ^ 64 = 2 ^ (64 - L) * 2 ^ L) by (rewrite <- Z.pow_add_r by lia; f_equal; lia).
  nia.
Qed.

End Bits.

(** ** The page offset survives [va_to_pa] *)

Section Low.
Variable cfg : config.
Local Abbreviation L := (LOG2_PAGE_SIZE cfg).
Hypothesis HL : 0 <= L <= 64.

Lemma va_paddr_page_offset p v : va_paddr cfg p v mod 2 ^ L = v mod 2 ^ L.
Proof.
  pose proof HL as [HL0 HL1].
  unfold va_paddr, splice, in_place.
  replace (upper (page_offset cfg (address v))) with L by reflexivity.
  replace (lower (page_offset cfg (address v))) with 0 by reflexivity.
  replace (upper (page_number cfg p)) with 64 by reflexivity.
  replace (lower (page_number cfg p)) with L by reflexivity.
  rewrite (value_page_offset_address cfg HL).
  generalize (value (page_number cfg p)). intros a.
  unfold slice_of_value; cbn [value]. unfold bitmask.
  rewrite (Z.min_r L 0), (Z.max_l 64 L) by lia. rewrite !Z.sub_0_r, !Z.max_r by lia.
  rewrite !Z.shiftl_0_r, Z.shiftr_0_r.
  rewrite <- !Z.land_ones by lia.
  bits.
Qed.
End Low.

(** ** First occurrences *)

Section IndexOf.
Context {A : Type} `{EqDecision A}.

Lemma index_of_None (x : A) l : index_of x l = None <-> x ∉ l.
Proof.
  induction l as [|y l IH]; simpl.
  - split; [intros _; apply not_elem_of_nil | reflexivity].
  - destruct (decide (x = y)) as [->|Hne].
    + split; [discriminate | intros Hn; exfalso; apply Hn; left].
    + rewrite not_elem_of_cons. destruct (index_of x l); simpl.
      * split; [discriminate |]. intros [_ Hn]. apply IH in Hn. discriminate.
      * split; [| reflexivity]. intros _. split; [assumption | apply IH; reflexivity].
Qed.

Lemma index_of_Some_lookup (x : A) l n : index_of x l = Some n -> l !! n = Some x.
Proof.
  revert n. induction l as [|y l IH]; simpl; intros n; [discriminate |].
  destruct (decide (x = y)) as [->|Hne].
  - intros [= <-]. reflexivity.
  - destruct (index_of x l) as [m|]; simpl; [| discriminate].
    intros [= <-]. simpl. apply IH. reflexivity.
Qed.

Lemma index_of_lt (x : A) l n : index_of x l = Some n -> (n < length l)%nat.
Proof. intros E. apply index_of_Some_lookup in E. apply lookup_lt_Some in E. exact E. Qed.

Lemma index_of_app_l (x : A) l l' n :
  index_of x l = Some n -> index_of x (l ++ l') = Some n.
Proof.
  revert n. induction l as [|y l IH]; simpl; intros n; [discriminate |].
  destruct (decide (x = y)); [auto |].
  destruct (index_of x l) as [m|]; simpl; [| discriminate].
  intros [= <-]. rewrite (IH m eq_refl). reflexivity.
Qed.

Lemma index_of_app_new (x : A) l : x ∉ l -> index_of x (l ++ [x]) = Some (length l).
Proof.
  induction l as [|y l IH]; simpl; intros Hn.
  - destruct (decide (x = x)); [reflexivity | congruence].
  - apply not_elem_of_cons in Hn as [Hne Hn].
    destruct (decide (x = y)); [congruence |]. rewrite (IH Hn). reflexivity.
Qed.

Lemma first_seen_extends (seen ks : list A) : exists ext, first_seen seen ks = seen ++ ext.
Proof.
  revert seen. induction ks as [|k ks IH]; simpl; intros seen.
  - exists []. rewrite app_nil_r. reflexivity.
  - destruct (bool_decide (k ∈ seen)).
    + apply IH.
    + destruct (IH (seen ++ [k])) as [ext ->]. exists (k :: ext).
      rewrite <- app_assoc. reflexivity.
Qed.

Lemma first_seen_length (seen ks : list A) : (length seen <= length (first_seen seen ks))%nat.
Proof. destruct (first_seen_extends seen ks) as [ext ->]. rewrite length_app. lia. Qed.

Lemma index_of_first_seen (x : A) seen ks n :
  index_of x seen = Some n -> index_of x (first_seen seen ks) = Some n.
Proof.
  intros E. destruct (first_seen_extends seen ks) as [ext ->].
  apply index_of_app_l. exact E.
Qed.

End IndexOf.

(** ** A sequence of translations *)

Section Translate.
Variable cfg : config.
Local Abbreviation L := (LOG2_PAGE_SIZE cfg).
Hypothesis HL : 0 <= L <= 64.

Lemma is_page_number_eq p :
  is_page_number cfg p -> p = mk_slice address_bits L (value p).
Proof. intros (Hu & Hl & _). destruct p; simpl in *. subst. reflexivity. Qed.

Lemma incr_page_number p :
  is_page_number cfg p -> value p + 1 < 2 ^ (address_bits - L) ->
  incr p = mk_slice address_bits L (value p + 1).
Proof.
  intros (Hu & Hl & Hv) Hlt. unfold incr, slice_of_value. rewrite Hu, Hl. f_equal.
  unfold bitmask, address_bits in *. rewrite Z.max_r by lia.
  rewrite Z.land_ones by lia. apply Z.mod_small. lia.
Qed.

(** One translation in a state that holds the keys [seen]: with a free
    page in the pool it returns, and the state then holds [seen] extended
    by the key of the call. *)
Lemma va_to_pa_translated base seen vm cpu_num vaddr :
  translated cfg base seen vm ->
  value (next_ppage vm) < value (last_ppage vm) ->
  exists k vm',
    index_of (vkey cfg cpu_num vaddr)
      (if bool_decide (vkey cfg cpu_num vaddr ∈ seen) then seen
       else seen ++ [vkey cfg cpu_num vaddr]) = Some k /\
    va_to_pa cfg vm cpu_num vaddr
    = Some ((base + Z.of_nat k) * 2 ^ L + vaddr mod 2 ^ L,
            if bool_decide (vkey cfg cpu_num vaddr ∈ seen)
            then 0 else minor_fault_penalty cfg, vm') /\
    translated cfg base
      (if bool_decide (vkey cfg cpu_num vaddr ∈ seen) then seen
       else seen ++ [vkey cfg cpu_num vaddr]) vm' /\
    last_ppage vm' = last_ppage vm.
Proof.
  intros (Hb & (Hn & Hl & Hle) & Hnext & Hmap) Hlt.
  set (k0 := vkey cfg cpu_num vaddr).
  destruct (bool_decide_reflect (k0 ∈ seen)) as [Hin | Hnin].
  - (* the page is mapped already *)
    destruct (index_of k0 seen) as [j|] eqn:Hj.
    2:{ apply index_of_None in Hj. contradiction. }
    assert (Hk : vpage_to_ppage_map vm !! vkey cfg cpu_num vaddr = Some (pool_page cfg base j))
      by (fold k0; rewrite Hmap, Hj; reflexivity).
    exists j, vm. split; [reflexivity |].
    rewrite (va_to_pa_hit cfg vm cpu_num vaddr _ Hlt Hk).
    split.
    + f_equal. f_equal. f_equal. apply (va_paddr_value cfg HL).
      pose proof (index_of_lt _ _ _ Hj). destruct Hl as (_ & _ & Hl).
      unfold pool_page, is_page_number; simpl. repeat split; try reflexivity; lia.
    + split; [| reflexivity]. unfold translated, pool_wf. auto.
  - (* first touch: the next pool page is handed out *)
    assert (Hk : vpage_to_ppage_map vm !! vkey cfg cpu_num vaddr = None).
    { fold k0. rewrite Hmap. apply index_of_None in Hnin. rewrite Hnin. reflexivity. }
    rewrite (va_to_pa_miss cfg vm cpu_num vaddr Hlt Hk). fold k0.
    assert (Hnp : next_ppage vm = pool_page cfg base (length seen)).
    { rewrite (is_page_number_eq _ Hn). unfold pool_page. rewrite Hnext. reflexivity. }
    assert (Hlen2 : length (seen ++ [k0]) = S (length seen))
      by (rewrite length_app; simpl; lia).
    assert (Hinc : incr (next_ppage vm) = pool_page cfg base (S (length seen))).
    { destruct Hl as (Hlu & Hll & Hlv).
      rewrite (incr_page_number _ Hn) by lia.
      unfold pool_page. f_equal. lia. }
    eexists (length seen), _. split; [apply index_of_app_new; assumption |].
    split.
    { f_equal. f_equal. f_equal. rewrite (va_paddr_value cfg HL _ _ Hn), Hnext. reflexivity. }
    split; [| reflexivity].
    split; [exact Hb |]. split.
    + destruct Hl as (Hlu & Hll & Hlv).
      unfold pool_wf. cbn [next_ppage last_ppage]. rewrite Hinc.
      unfold pool_page, is_page_number. cbn [upper lower value].
      repeat split; try reflexivity; try assumption; lia.
    + split.
      * cbn [next_ppage]. rewrite Hinc, Hlen2. reflexivity.
      * intros k. cbn [vpage_to_ppage_map]. rewrite Hnp.
        destruct (decide (k0 = k)) as [<- | Hne].
        -- rewrite lookup_insert_eq, index_of_app_new by assumption. reflexivity.
        -- rewrite lookup_insert_ne, Hmap by assumption.
           destruct (index_of k seen) as [j|] eqn:Hj.
           { rewrite (index_of_app_l _ _ _ _ Hj). reflexivity. }
           assert (Hj' : index_of k (seen ++ [k0]) = None).
           { apply index_of_None. apply index_of_None in Hj.
             rewrite elem_of_app, list_elem_of_singleton.
             intros [? | ?]; [contradiction | congruence]. }
           rewrite Hj'. reflexivity.
Qed.

Lemma first_seen_cons (seen : list (Z * Z)) k0 ks :
  first_seen seen (k0 :: ks)
  = first_seen (if bool_decide (k0 ∈ seen) then seen else seen ++ [k0]) ks.
Proof. cbn [first_seen]. destruct (bool_decide (k0 ∈ seen)); reflexivity. Qed.

(** A sequence of translations each of which finds a free page: all
    return, and the keys get the pool pages in the order of their first
    occurrence. *)
Lemma va_to_pa_seq_translated reqs : forall base seen vm,
  translated cfg base seen vm ->
  (forall i : nat, (i < length reqs)%nat ->
     base + Z.of_nat (length (first_seen seen (take i (request_keys cfg reqs))))
     < value (last_ppage vm)) ->
  exists res vm',
    va_to_pa_seq cfg vm reqs = Some (res, vm') /\
    translated cfg base (first_seen seen (request_keys cfg reqs)) vm' /\
    last_ppage vm' = last_ppage vm /\
    forall (i : nat) cpu_num vaddr, reqs !! i = Some (cpu_num, vaddr) ->
      exists k,
        index_of (vkey cfg cpu_num vaddr) (first_seen seen (request_keys cfg reqs)) = Some k /\
        res !! i =
        Some ((base + Z.of_nat k) * 2 ^ L + vaddr mod 2 ^ L,
              if bool_decide (vkey cfg cpu_num vaddr ∈ seen ++ take i (request_keys cfg reqs))
              then 0 else minor_fault_penalty cfg).
Proof.
  induction reqs as [|[cpu0 va0] rest IH]; intros base seen vm Htr Hroom.
  - exists [], vm. simpl.
    split; [reflexivity |]. split; [assumption |]. split; [reflexivity |].
    intros i ? ? Hi. rewrite lookup_nil in Hi. discriminate.
  - cbn [request_keys map fst snd]. fold (request_keys cfg rest).
    set (k0 := vkey cfg cpu0 va0) in *.
    assert (Hlt : value (next_ppage vm) < value (last_ppage vm)).
    { pose proof (Hroom 0%nat ltac:(cbn; lia)) as H0. cbn in H0.
      destruct Htr as (_ & _ & Hnext & _). lia. }
    destruct (va_to_pa_translated base seen vm cpu0 va0 Htr Hlt)
      as (k & vm1 & Hk & Hva & Htr1 & Hl1).
    fold k0 in Hk, Hva, Htr1.
    set (seen' := if bool_decide (k0 ∈ seen) then seen else seen ++ [k0]) in *.
    destruct (IH base seen' vm1 Htr1) as (res & vm' & Hrun & Htr' & Hlast & Hres).
    { intros i Hi. rewrite Hl1.
      pose proof (Hroom (S i) ltac:(cbn; lia)) as HS.
      cbn [request_keys map fst snd take] in HS. fold (request_keys cfg rest) in HS.
      fold k0 in HS. rewrite first_seen_cons in HS. exact HS. }
    cbn [va_to_pa_seq]. rewrite Hva, Hrun. rewrite first_seen_cons. fold seen'.
    eexists _, vm'. split; [reflexivity |]. split; [exact Htr' |].
    split; [congruence |].
    intros [|i] cpu_num vaddr Hi; cbn in Hi.
    + injection Hi as <- <-. exists k. split.
      { apply index_of_first_seen. exact Hk. }
      cbn [lookup take]. rewrite app_nil_r. fold k0. reflexivity.
    + destruct (Hres i cpu_num vaddr Hi) as (k' & Hk' & Hri). exists k'.
      split; [exact Hk' |].
      cbn [take]. change ((?x :: res) !! S i) with (res !! i). rewrite Hri.
      f_equal. f_equal.
      erewrite bool_decide_ext; [reflexivity |].
      unfold seen'. destruct (bool_decide_reflect (k0 ∈ seen)) as [Hin | Hnin].
      * rewrite !elem_of_app, elem_of_cons.
        split; [tauto |]. intros [? | [-> | ?]]; tauto.
      * rewrite <- app_assoc. reflexivity.
Qed.

(** A sequence with a call that finds the pool empty aborts. *)
Lemma va_to_pa_seq_exhausted reqs : forall base seen vm,
  translated cfg base seen vm ->
  (exists i : nat, (i < length reqs)%nat /\
     value (last_ppage vm)
     <= base + Z.of_nat (length (first_seen seen (take i (request_keys cfg reqs))))) ->
  va_to_pa_seq cfg vm reqs = None.
Proof.
  induction reqs as [|[cpu0 va0] rest IH]; intros base seen vm Htr (i & Hi & Hfull).
  - cbn in Hi. lia.
  - cbn [va_to_pa_seq].
    destruct (Z.le_gt_cases (value (last_ppage vm)) (value (next_ppage vm))) as [Hle | Hlt].
    { rewrite (va_to_pa_abort cfg vm cpu0 va0 Hle). reflexivity. }
    destruct (va_to_pa_translated base seen vm cpu0 va0 Htr Hlt)
      as (k & vm1 & _ & Hva & Htr1 & Hl1).
    rewrite Hva.
    assert (Hrest : va_to_pa_seq cfg vm1 rest = None).
    { apply (IH base _ vm1 Htr1).
      destruct i as [|i].
      - cbn in Hfull. destruct Htr as (_ & _ & Hnext & _). lia.
      - exists i. split; [cbn in Hi; lia |]. rewrite Hl1.
        cbn [request_keys map fst snd take] in Hfull.
        fold (request_keys cfg rest) in Hfull.
        rewrite first_seen_cons in Hfull. exact Hfull. }
    rewrite Hrest. reflexivity.
Qed.

End Translate.

(** ** What the constructor computes *)

Lemma wrap64_mod n : wrap64 n = n mod 2 ^ 64.
Proof. unfold wrap64, address_bits. apply Z.land_ones. lia. Qed.

Lemma pow2_mod_pow2_ge a b : 0 <= b <= a -> 2 ^ a mod 2 ^ b = 0.
Proof.
  intros H. replace a with ((a - b) + b) by lia. rewrite Z.pow_add_r by lia.
  apply Z.mod_mul. apply Z.pow_nonzero; lia.
Qed.

Lemma pow2_lt_small a b : 0 <= a < b -> 0 <= 2 ^ a < 2 ^ b.
Proof. intros H. split; [apply Z.pow_nonneg; lia | apply Z.pow_lt_mono_r; lia]. Qed.

Lemma land_u32 n : 0 <= n < 2 ^ 32 -> Z.land n (Z.ones 32) = n.
Proof. intros H. rewrite Z.land_ones by lia. apply Z.mod_small. exact H. Qed.

Section Construct.
Variable cfg : config.
Local Abbreviation L := (LOG2_PAGE_SIZE cfg).
Local Abbreviation k := (lg2_pte_count cfg).
Local Abbreviation n := (pt_levels cfg).

(** A PTE page of [2 ^ b] bytes, [3 <= b], holds [2 ^ (b - 3)] entries. *)
Lemma pte_count_pow2 b :
  3 <= b -> pte_page_size cfg = 2 ^ b ->
  pte_count cfg = 2 ^ (b - 3) /\ k = b - 3 /\ lg2_pte cfg = b.
Proof.
  intros Hb Hp.
  assert (Hc : pte_count cfg = 2 ^ (b - 3)).
  { unfold pte_count, pte_entry_byte_multiple. rewrite Hp.
    replace b with ((b - 3) + 3) at 1 by lia. rewrite Z.pow_add_r by lia.
    change (2 ^ 3) with 8. apply Z.div_mul. lia. }
  split; [exact Hc |]. split.
  - unfold lg2_pte_count, lg2. rewrite Hc. apply Z.log2_pow2. lia.
  - unfold lg2_pte, lg2. rewrite Hp. apply Z.log2_pow2. lia.
Qed.

(** The sizes of a configuration that passes the first two assertions. *)
Lemma construct_sizes vm :
  construct cfg = Some vm ->
  11 <= lg2_pte cfg /\ pte_page_size cfg = 2 ^ lg2_pte cfg /\
  k = lg2_pte cfg - 3 /\ pte_count cfg = 2 ^ k /\
  pte_page_size cfg = 8 * pte_count cfg.
Proof.
  intros E. apply construct_Some in E as (_ & Hgt & Hpow & _).
  assert (Hp : pte_page_size cfg = 2 ^ lg2_pte cfg).
  { unfold is_power_of_2 in Hpow. apply andb_true_iff in Hpow as [_ Hp].
    apply Z.eqb_eq in Hp. exact Hp. }
  assert (Hk0 : 0 <= lg2_pte cfg) by apply Z.log2_nonneg.
  assert (Hk11 : 11 <= lg2_pte cfg).
  { destruct (Z.le_gt_cases 11 (lg2_pte cfg)) as [? | Hs]; [assumption | exfalso].
    assert (2 ^ lg2_pte cfg <= 2 ^ 10) by (apply Z.pow_le_mono_r; lia). lia. }
  destruct (pte_count_pow2 (lg2_pte cfg) ltac:(lia) Hp) as (Hc & Hk & _).
  split; [exact Hk11 |]. split; [exact Hp |]. split; [exact Hk |].
  split; [rewrite Hk; exact Hc |].
  rewrite Hc. rewrite Hp at 1.
  replace (lg2_pte cfg) with ((lg2_pte cfg - 3) + 3) at 1 by lia.
  rewrite Z.pow_add_r by lia. lia.
Qed.

(** The page number the constructor computes for [last_ppage]. *)
Lemma initial_last_value :
  0 <= n < 2 ^ 32 -> pte_count cfg = 2 ^ k ->
  value (last_ppage (initial_vmem cfg)) =
  if (0 <=? L) && (L + k * n <? 64) then (pte_count cfg) ^ n else 0.
Proof.
  intros Hn Hp.
  assert (Hk : 0 <= k) by apply Z.log2_nonneg.
  unfold initial_vmem; cbn [last_ppage]. unfold lowest_address_for_size.
  rewrite land_u32 by assumption.
  destruct (Z.leb_spec 0 L) as [HL0 | HL0]; cbn [andb].
  2:{ unfold pages_to_bytes. rewrite (Z.pow_neg_r 2 L) by lia.
      rewrite Z.mul_0_r. change (wrap64 0) with 0.
      unfold page_number, convert, in_place, address, slice_of_value; cbn [value lower].
      rewrite Z.land_0_l, Z.shiftl_0_l, Z.shiftr_0_l, Z.land_0_l. reflexivity. }
  destruct (Z.le_gt_cases 64 L) as [HL64 | HL64].
  { destruct (Z.ltb_spec (L + k * n) 64) as [Hc | Hc]; [nia |].
    unfold page_number, convert, slice_of_value; cbn [value].
    unfold bitmask, address_bits. rewrite Z.max_l by lia. apply Z.land_0_r. }
  rewrite (value_page_number_address cfg) by lia.
  unfold pages_to_bytes, ipow. rewrite !wrap64_mod, Hp.
  rewrite <- Z.pow_mul_r by lia.
  assert (H64 : 0 < 2 ^ 64) by lia.
  rewrite Z.mod_mod by lia.
  rewrite Z.mul_mod_idemp_l by lia. rewrite <- Z.pow_add_r by nia.
  destruct (Z.ltb_spec (L + k * n) 64) as [Hc | Hc].
  - rewrite Z.mod_small by (apply pow2_lt_small; nia).
    replace (k * n + L) with (k * n + L - L + L) by lia.
    rewrite (Z.pow_add_r 2 (k * n + L - L) L) by nia.
    rewrite Z.div_mul by (apply Z.pow_nonzero; lia). f_equal. lia.
  - rewrite pow2_mod_pow2_ge by nia. apply Z.div_0_l. apply Z.pow_nonzero; lia.
Qed.

Lemma initial_next_value :
  0 <= L < 64 ->
  value (next_ppage (initial_vmem cfg)) = Z.max (2 ^ L) (2 ^ 20) / 2 ^ L.
Proof.
  intros HL. unfold initial_vmem; cbn [next_ppage]. unfold lowest_address_for_size.
  rewrite (value_page_number_address cfg) by lia. f_equal.
  apply Z.mod_small. unfold VMEM_RESERVE_CAPACITY.
  pose proof (pow2_lt_small L 64 ltac:(lia)). lia.
Qed.

(** What a configuration that passes the constructor's assertions looks like. *)
Lemma construct_valid vm :
  construct cfg = Some vm -> 0 <= n < 2 ^ 32 ->
  0 <= L /\ 8 <= k /\ pte_count cfg = 2 ^ k /\ L + k * n < 64 /\
  value (last_ppage vm) = (pte_count cfg) ^ n /\
  value (next_ppage vm) = Z.max (2 ^ L) (2 ^ 20) / 2 ^ L.
Proof.
  intros E Hn.
  destruct (construct_sizes vm E) as (Hk11 & _ & Hk3 & Hp & _).
  apply construct_Some in E as (-> & Hgt & Hpow & Hlt).
  pose proof (initial_next_nonneg cfg) as Hnn.
  rewrite (initial_last_value Hn Hp) in Hlt |- *.
  destruct (Z.leb_spec 0 L) as [HL0 | HL0]; cbn [andb] in *; [| lia].
  destruct (Z.ltb_spec (L + k * n) 64) as [Hc | Hc]; [| lia].
  repeat split; try assumption; try lia.
  apply initial_next_value. nia.
Qed.

End Construct.

(** C7: construction aborts exactly when the PTE-page size is not a power
    of two, or is at most 1 KiB, or the computed pool is empty or
    inverted; in every other case it returns the initialised object.  For
    a PTE page of [2 ^ b] bytes the pool is empty or inverted exactly when
    the index fields of all levels do not fit below bit 64 (the power
    wraps around to page 0) or the [pt_levels]-th power of the
    number of entries of a PTE page does not exceed the number of reserved
    pages. *)
Theorem construct_aborts_exactly (cfg : config) :
  (construct cfg = None <->
   (~ (exists k, 0 <= k /\ pte_page_size cfg = 2 ^ k)) \/
   pte_page_size cfg <= 1024 \/
   value (last_ppage (initial_vmem cfg)) <= value (next_ppage (initial_vmem cfg))) /\
  (construct cfg = None \/ construct cfg = Some (initial_vmem cfg)) /\
  (0 <= pt_levels cfg < 2 ^ 32 -> 0 <= LOG2_PAGE_SIZE cfg < 64 ->
   forall b, 11 <= b -> pte_page_size cfg = 2 ^ b ->
     (value (last_ppage (initial_vmem cfg)) <= value (next_ppage (initial_vmem cfg)) <->
      64 <= LOG2_PAGE_SIZE cfg + (b - 3) * pt_levels cfg \/
      (2 ^ (b - 3)) ^ pt_levels cfg
        <= Z.max (2 ^ LOG2_PAGE_SIZE cfg) (2 ^ 20) / 2 ^ LOG2_PAGE_SIZE cfg)).
Proof.
  pose proof (is_power_of_2_spec (pte_page_size cfg)) as Hp.
  split; [| split].
  - unfold construct.
    destruct (Z.ltb_spec 1024 (pte_page_size cfg)) as [Hk|Hk]; cbn [negb].
    2:{ split; auto. }
    destruct (is_power_of_2 (pte_page_size cfg)) eqn:Hpow; cbn [negb].
    2:{ split; auto. intros _. left. intros Hex. apply Hp in Hex. discriminate. }
    destruct (Z.ltb_spec (value (next_ppage (initial_vmem cfg)))
                         (value (last_ppage (initial_vmem cfg)))) as [Hl|Hl]; cbn [negb].
    2:{ split; auto. }
    split; [discriminate |].
    intros [Hn | [Hle | Hle]]; [| lia | lia].
    exfalso. apply Hn. apply Hp. reflexivity.
  - unfold construct.
    destruct (negb (1024 <? pte_page_size cfg)); [auto |].
    destruct (negb (is_power_of_2 (pte_page_size cfg))); [auto |].
    destruct (negb (value (next_ppage (initial_vmem cfg))
                    <? value (last_ppage (initial_vmem cfg)))); auto.
  - intros Hn HL b Hb Hbytes.
    destruct (pte_count_pow2 cfg b ltac:(lia) Hbytes) as (Hc & Hk & _).
    assert (Hc' : pte_count cfg = 2 ^ lg2_pte_count cfg) by (rewrite Hk; exact Hc).
    rewrite (initial_last_value cfg Hn Hc'), (initial_next_value cfg HL).
    rewrite Hk, Hc.
    assert (H1 : 1 <= Z.max (2 ^ LOG2_PAGE_SIZE cfg) (2 ^ 20) / 2 ^ LOG2_PAGE_SIZE cfg).
    { assert (0 < 2 ^ LOG2_PAGE_SIZE cfg) by (apply Z.pow_pos_nonneg; lia).
      apply Z.div_le_lower_bound; lia. }
    destruct (Z.leb_spec 0 (LOG2_PAGE_SIZE cfg)) as [_ | ?]; [| lia]. cbn [andb].
    destruct (Z.ltb_spec (LOG2_PAGE_SIZE cfg + (b - 3) * pt_levels cfg) 64) as [Hfit | Hfit].
    + split; [auto |]. intros [? | ?]; [lia | assumption].
    + split; [intros _; left; exact Hfit | intros _; lia].
Qed.

(** C7, witness: the five-level memory of 4 KiB PTE pages is constructed;
    one level of 2 KiB PTE pages is refused, because its 256 pages do not
    reach above the 256 reserved ones. *)
Lemma construct_aborts_exactly_witness :
  construct cfg_five = Some (initial_vmem cfg_five) /\
  construct (mk_config 12 2048 1 200) = None.
Proof.
  split.
  - destruct (construct_aborts_exactly cfg_five) as (Hiff & [Hnone | Hsome] & Hpool);
      [| exact Hsome].
    exfalso. apply Hiff in Hnone. destruct Hnone as [Hn | [Hle | Hle]].
    + apply Hn. exists 12. split; [lia | reflexivity].
    + cbn in Hle. lia.
    + apply (Hpool ltac:(cbn; lia) ltac:(cbn; lia) 12 ltac:(lia) eq_refl) in Hle.
      cbn in Hle. destruct Hle as [Hle | Hle]; [lia |].
      vm_compute in Hle. apply Hle. reflexivity.
  - destruct (construct_aborts_exactly (mk_config 12 2048 1 200)) as (Hiff & _ & Hpool).
    apply Hiff. right. right.
    apply (Hpool ltac:(cbn; lia) ltac:(cbn; lia) 11 ltac:(lia) eq_refl).
    right. vm_compute. discriminate.
Defined.

(** ** Index fields *)

Section Slicing.
Variable cfg : config.
Local Abbreviation L := (LOG2_PAGE_SIZE cfg).
Local Abbreviation k := (lg2_pte_count cfg).
Hypothesis HL : 0 <= L.
Hypothesis Hk : 1 <= k.

Lemma shamt_value level :
  1 <= level -> L + k * (level - 1) < 64 ->
  shamt cfg level = L + k * (level - 1).
Proof.
  intros H1 Hlt. unfold shamt. rewrite !wrap64_mod.
  rewrite (Z.mod_small (level - 1)) by nia.
  apply Z.mod_small. nia.
Qed.

Lemma get_offset_value vaddr level :
  1 <= level -> L + k * level <= 64 ->
  get_offset cfg vaddr level = (vaddr / 2 ^ shamt cfg level) mod 2 ^ k.
Proof.
  intros H1 Hle. rewrite <- Z.land_ones, <- Z.shiftr_div_pow2;
    rewrite ?shamt_value by nia; try nia.
  unfold get_offset, to_uint64, slice, convert, in_place, address, slice_of_value.
  cbn [value lower]. rewrite shamt_value by nia.
  unfold bitmask, address_bits.
  replace (0 + (L + k * (level - 1)) + k - (0 + (L + k * (level - 1)))) with k by lia.
  rewrite !Z.max_r by lia. rewrite Z.shiftl_0_r, Z.add_0_l.
  assert (Hs : 0 <= L + k * (level - 1)) by nia.
  assert (Hs' : L + k * (level - 1) + k <= 64) by nia.
  remember (L + k * (level - 1)) as s eqn:Es. clear Es.
  bits.
Qed.

Lemma reassemble_value vaddr (m : nat) :
  L + k * Z.of_nat m <= 64 ->
  reassemble cfg vaddr m = vaddr mod 2 ^ (L + k * Z.of_nat m).
Proof.
  induction m as [|m IH]; intros Hle.
  - cbn [reassemble]. rewrite (value_page_offset_address cfg) by lia.
    f_equal. f_equal. lia.
  - cbn [reassemble]. rewrite IH by lia.
    rewrite get_offset_value by lia. rewrite shamt_value by lia.
    replace (Z.of_nat (S m) - 1) with (Z.of_nat m) by lia.
    replace (L + k * Z.of_nat (S m)) with ((L + k * Z.of_nat m) + k) by lia.
    assert (Hs : 0 <= L + k * Z.of_nat m) by nia.
    remember (L + k * Z.of_nat m) as s eqn:Es. clear Es.
    rewrite (Z.pow_add_r 2 s k) by lia.
    rewrite Z.rem_mul_r by (apply Z.pow_nonzero || apply Z.pow_pos_nonneg; lia).
    ring.
Qed.

End Slicing.

(** ** The walker *)


Lemma fill_ways c vaddr paddr : pscl_ways (fill c vaddr paddr) = pscl_ways c.
Proof. reflexivity. Qed.

Section WalkFacts.
Variable cfg : config.
Variable mem_latency : Z.
Hypothesis Hpen : 0 <= minor_fault_penalty cfg.



End WalkFacts.



(** ** The claims on [va_to_pa] *)

Lemma page_of_paddr (l p r : Z) : 0 <= l -> 0 <= r < 2 ^ l -> (p * 2 ^ l + r) / 2 ^ l = p.
Proof.
  intros Hl Hr. symmetry. apply (Z.div_unique_pos _ _ p r); [exact Hr | ring].
Qed.

(** C1 (amended): starting from an empty VPN map, a sequence of
    [va_to_pa] calls each of which is made while the pool has a free page
    (the calls before it touch fewer distinct (requester, virtual page)
    pairs than the pool has free pages) runs to its end; the call whose
    pair is the [k]-th distinct one (counting from 0) gets pool page
    [next_ppage + k], so [next_ppage] only grows and distinct pairs never
    share a physical page; the penalty is [minor_fault_penalty] at the
    first occurrence of a pair and 0 at every later one; and repeating a
    request returns the same physical address with penalty 0.  The
    condition is exact: a sequence with a call made while the pool is
    empty aborts. *)
Theorem va_to_pa_seq_allocation (cfg : config) (vm : VirtualMemory)
    (reqs : list (Z * Z)) :
  0 <= LOG2_PAGE_SIZE cfg <= 64 ->
  pool_wf cfg vm ->
  vpage_to_ppage_map vm = ∅ ->
  ((forall i : nat, (i < length reqs)%nat ->
      Z.of_nat (length (first_seen [] (take i (request_keys cfg reqs)))) < free_pages vm) ->
   exists res vm',
     va_to_pa_seq cfg vm reqs = Some (res, vm') /\
     value (next_ppage vm') =
       value (next_ppage vm) + Z.of_nat (length (first_seen [] (request_keys cfg reqs))) /\
     (forall (i : nat) cpu_num vaddr, reqs !! i = Some (cpu_num, vaddr) ->
        exists k,
          index_of (vkey cfg cpu_num vaddr) (first_seen [] (request_keys cfg reqs)) = Some k /\
          res !! i =
          Some ((value (next_ppage vm) + Z.of_nat k) * 2 ^ LOG2_PAGE_SIZE cfg
                + vaddr mod 2 ^ LOG2_PAGE_SIZE cfg,
                if bool_decide (vkey cfg cpu_num vaddr ∈ take i (request_keys cfg reqs))
                then 0 else minor_fault_penalty cfg)) /\
     (forall (i j : nat) r, (i < j)%nat -> reqs !! i = Some r -> reqs !! j = Some r ->
        exists pa pen, res !! i = Some (pa, pen) /\ res !! j = Some (pa, 0)) /\
     (forall (i j : nat) ci vi cj vj pi qi pj qj,
        reqs !! i = Some (ci, vi) -> reqs !! j = Some (cj, vj) ->
        vkey cfg ci vi <> vkey cfg cj vj ->
        res !! i = Some (pi, qi) -> res !! j = Some (pj, qj) ->
        pi / 2 ^ LOG2_PAGE_SIZE cfg <> pj / 2 ^ LOG2_PAGE_SIZE cfg)) /\
  ((exists i : nat, (i < length reqs)%nat /\
      free_pages vm <= Z.of_nat (length (first_seen [] (take i (request_keys cfg reqs))))) ->
   va_to_pa_seq cfg vm reqs = None).
Proof.
  intros HL Hwf Hempty. unfold free_pages.
  set (base := value (next_ppage vm)) in *.
  set (keys := request_keys cfg reqs) in *.
  assert (Htr : translated cfg base [] vm).
  { destruct Hwf as ((Hu & Hl & Hv) & Hlast & Hle). unfold translated.
    split; [unfold base; lia |].
    split; [unfold pool_wf, is_page_number; auto |].
    split; [cbn; unfold base; lia |].
    intros k. rewrite Hempty, lookup_empty. reflexivity. }
  split.
  2:{ intros (i & Hi & Hfull).
      apply (va_to_pa_seq_exhausted cfg HL reqs base [] vm Htr).
      exists i. split; [exact Hi |]. fold keys. lia. }
  intros Hroom.
  destruct (va_to_pa_seq_translated cfg HL reqs base [] vm Htr)
    as (res & vm' & Hrun & (_ & _ & Hnext' & _) & _ & Hres).
  { intros i Hi. fold keys. specialize (Hroom i Hi). lia. }
  fold keys in Hres, Hnext'. cbn [app] in Hres.
  assert (H2 : 0 < 2 ^ LOG2_PAGE_SIZE cfg) by (apply Z.pow_pos_nonneg; lia).
  exists res, vm'. split; [exact Hrun |]. split; [exact Hnext' |].
  split; [exact Hres |]. split.
  - intros i j [c v] Hij Hi Hj.
    destruct (Hres i c v Hi) as (k & Hk & Hri).
    destruct (Hres j c v Hj) as (k' & Hk' & Hrj).
    assert (k' = k) by congruence. subst k'.
    assert (Hin : vkey cfg c v ∈ take j keys).
    { apply list_elem_of_lookup. exists i.
      rewrite lookup_take_lt by lia. unfold keys, request_keys.
      rewrite list_lookup_fmap, Hi. reflexivity. }
    rewrite (bool_decide_eq_true_2 _ Hin) in Hrj.
    eexists _, _. split; [exact Hri | exact Hrj].
  - intros i j ci vi cj vj pi qi pj qj Hi Hj Hne Hpi Hpj.
    destruct (Hres i ci vi Hi) as (ki & Hki & Hri).
    destruct (Hres j cj vj Hj) as (kj & Hkj & Hrj).
    rewrite Hri in Hpi. rewrite Hrj in Hpj.
    injection Hpi as <- _. injection Hpj as <- _.
    rewrite !page_of_paddr by (try apply Z.mod_pos_bound; lia).
    intros Heq. assert (ki = kj) by lia. subst kj.
    apply index_of_Some_lookup in Hki, Hkj. congruence.
Qed.

(** C1, witness: three translations by requester 0 on the constructed
    two-level memory, the third repeating the first. *)
Lemma va_to_pa_seq_allocation_witness :
  exists res vm',
    va_to_pa_seq cfg_2k (initial_vmem cfg_2k)
      [(0, 3735928559); (0, 4096); (0, 3735928559)] = Some (res, vm') /\
    value (next_ppage vm') = 256 + 2 /\
    res !! 2%nat = Some (256 * 4096 + 3735928559 mod 4096, 0).
Proof.
  destruct (va_to_pa_seq_allocation cfg_2k (initial_vmem cfg_2k)
              [(0, 3735928559); (0, 4096); (0, 3735928559)]) as (Hreturns & _).
  - cbn. lia.
  - repeat split; cbn; try reflexivity; try lia; discriminate.
  - reflexivity.
  - destruct Hreturns as (res & vm' & Hrun & Hnext & Hres & _).
    + intros i Hi.
      assert (Hcases : i = 0%nat \/ i = 1%nat \/ i = 2%nat) by (cbn in Hi; lia).
      destruct Hcases as [-> | [-> | ->]]; vm_compute; reflexivity.
    + exists res, vm'. split; [exact Hrun |]. split; [exact Hnext |].
      destruct (Hres 2%nat 0 3735928559 eq_refl) as (k & Hk & Hr).
      vm_compute in Hk. injection Hk as <-. exact Hr.
Defined.

(** C1, counterexample: the one-level memory with 4 KiB PTE pages is
    constructed with a pool of 256 pages.  Requester 0 touches 256
    distinct pages, which empties the pool; its first address is mapped,
    yet translating it again aborts instead of returning the mapped
    address with penalty 0. *)
Lemma va_to_pa_retranslate_aborts :
  construct cfg_one_level = Some (initial_vmem cfg_one_level) /\
  free_pages (initial_vmem cfg_one_level) = 256 /\
  match va_to_pa_seq cfg_one_level (initial_vmem cfg_one_level) (touch_pages 256) with
  | Some (res, vm) =>
    res !! 0%nat = Some (256 * 4096, 200) /\
    vpage_to_ppage_map vm !! vkey cfg_one_level 0 0 = Some (mk_slice 64 12 256) /\
    va_to_pa cfg_one_level vm 0 0 = None
  | None => False
  end.
Proof.
  split; [reflexivity |]. split; [reflexivity |].
  vm_compute. repeat split; reflexivity.
Qed.

(** C2 (amended): whenever [va_to_pa] returns, the page-offset bits of
    the physical address are those of the virtual address.  (Nothing of
    the kind is stated for [get_pte_pa].) *)
Theorem va_to_pa_keeps_page_offset (cfg : config) (vm : VirtualMemory)
    (cpu_num vaddr pa pen : Z) (vm' : VirtualMemory) :
  0 <= LOG2_PAGE_SIZE cfg <= 64 ->
  va_to_pa cfg vm cpu_num vaddr = Some (pa, pen, vm') ->
  pa mod 2 ^ LOG2_PAGE_SIZE cfg = vaddr mod 2 ^ LOG2_PAGE_SIZE cfg.
Proof.
  intros HL E.
  destruct (Z.le_gt_cases (value (last_ppage vm)) (value (next_ppage vm))) as [Hle | Hlt].
  { rewrite va_to_pa_abort in E by assumption. discriminate. }
  destruct (vpage_to_ppage_map vm !! vkey cfg cpu_num vaddr) as [p|] eqn:Hk.
  - rewrite (va_to_pa_hit cfg _ _ _ _ Hlt Hk) in E. injection E as <- _ _.
    apply va_paddr_page_offset. exact HL.
  - rewrite (va_to_pa_miss cfg _ _ _ Hlt Hk) in E. injection E as <- _ _.
    apply va_paddr_page_offset. exact HL.
Qed.

(** C2, witness: the first translation on the constructed four-level
    memory. *)
Lemma va_to_pa_keeps_page_offset_witness :
  exists pa pen vm',
    va_to_pa cfg_4k (initial_vmem cfg_4k) 0 3735928559 = Some (pa, pen, vm') /\
    pa mod 2 ^ 12 = 3735928559 mod 2 ^ 12.
Proof.
  destruct (va_to_pa cfg_4k (initial_vmem cfg_4k) 0 3735928559)
    as [[[pa pen] vm']|] eqn:E; [| vm_compute in E; discriminate].
  exists pa, pen, vm'. split; [reflexivity |].
  apply (va_to_pa_keeps_page_offset cfg_4k _ _ _ _ _ _ ltac:(cbn; lia) E).
Defined.

(** C2, counterexample: on the constructed four-level memory the
    level-1 PTE address of virtual address 1 is page-aligned, so the
    page offset 1 of the input is not reproduced by [get_pte_pa]. *)
Lemma get_pte_pa_drops_page_offset :
  exists pa pen vm',
    construct cfg_4k = Some (initial_vmem cfg_4k) /\
    get_pte_pa cfg_4k (initial_vmem cfg_4k) 0 1 1 = Some (pa, pen, vm') /\
    pa mod 2 ^ LOG2_PAGE_SIZE cfg_4k = 0 /\
    1 mod 2 ^ LOG2_PAGE_SIZE cfg_4k = 1.
Proof.
  eexists _, _, _. split; [reflexivity |].
  split; [vm_compute; reflexivity |]. split; reflexivity.
Qed.

(** ** The claims on [get_pte_pa] *)

Lemma shamt_nonneg cfg level : 0 <= shamt cfg level.
Proof. unfold shamt. rewrite wrap64_mod. apply Z.mod_pos_bound. lia. Qed.

(** The third component of the PTE-location key: the address bits from
    the level's index field upward. *)
Lemma pte_key_value cfg cpu_num vaddr level :
  pte_key cfg cpu_num vaddr level
  = (cpu_num, level, Z.shiftr (wrap64 vaddr) (shamt cfg level)).
Proof.
  pose proof (shamt_nonneg cfg level) as Hs.
  unfold pte_key, slice_upper, convert, in_place, address, slice_of_value.
  cbn [value lower upper]. f_equal.
  unfold wrap64, bitmask, address_bits. change (Z.max 0 (64 - 0)) with 64.
  rewrite Z.shiftl_0_r, Z.add_0_l.
  remember (shamt cfg level) as s eqn:Es. clear Es.
  destruct (Z.le_gt_cases (64 - s) 0) as [Hw | Hw].
  - rewrite Z.max_l by lia. rewrite Z.land_0_r. symmetry. bits.
  - rewrite Z.max_r by lia. bits.
Qed.

(** C3 (amended): when [get_pte_pa] returns, its penalty is
    [minor_fault_penalty] if the PTE-location map had no entry for the
    key (requester, level, address bits from that level's index field
    upward), in which case the call adds one, and 0 if it had one, in
    which case the map is left as it was.  With a penalty that is not 0
    this is an equivalence. *)
Theorem get_pte_pa_penalty (cfg : config) (vm : VirtualMemory)
    (cpu_num vaddr level pa pen : Z) (vm' : VirtualMemory) :
  get_pte_pa cfg vm cpu_num vaddr level = Some (pa, pen, vm') ->
  let key := (cpu_num, level, Z.shiftr (wrap64 vaddr) (shamt cfg level)) in
  (page_table vm !! key = None ->
     pen = minor_fault_penalty cfg /\
     exists slot, page_table vm' = <[key := slot]> (page_table vm)) /\
  (is_Some (page_table vm !! key) ->
     pen = 0 /\ page_table vm' = page_table vm) /\
  (minor_fault_penalty cfg <> 0 ->
     (pen = minor_fault_penalty cfg <-> page_table vm !! key = None)).
Proof.
  intros E key. unfold key. rewrite <- pte_key_value.
  destruct (activate_pte_page cfg vm) as [vm0|] eqn:Ha.
  2:{ rewrite get_pte_pa_abort in E by assumption. discriminate. }
  destruct (activate_page_table _ _ _ Ha) as (Hpt & _).
  destruct (page_table vm !! pte_key cfg cpu_num vaddr level) as [p|] eqn:Hk.
  - rewrite (get_pte_pa_hit _ _ _ _ _ _ _ Ha Hk) in E. injection E as <- <- <-.
    split; [discriminate |]. split; [auto |].
    intros Hne. split; [congruence | discriminate].
  - rewrite (get_pte_pa_miss _ _ _ _ _ _ Ha Hk) in E. injection E as <- <- <-.
    split.
    + intros _. split; [reflexivity |]. cbn [page_table]. rewrite Hpt. eauto.
    + split; [intros [? ?]; discriminate |]. intros _. split; auto.
Qed.

(** C3, witness: on the constructed four-level memory two level-2
    requests whose addresses differ in bit 21, the lowest bit of the
    level-2 index field: each creates its entry and pays the penalty. *)
Lemma get_pte_pa_penalty_witness :
  exists pa pen vm1 pa' pen' vm2,
    get_pte_pa cfg_4k (initial_vmem cfg_4k) 0 0 2 = Some (pa, pen, vm1) /\
    pen = 200 /\
    get_pte_pa cfg_4k vm1 0 2097152 2 = Some (pa', pen', vm2) /\
    pen' = 200.
Proof.
  destruct (get_pte_pa cfg_4k (initial_vmem cfg_4k) 0 0 2)
    as [[[pa pen] vm1]|] eqn:E1; [| vm_compute in E1; discriminate].
  pose proof E1 as E1'. vm_compute in E1'. injection E1' as _ _ Hvm1.
  destruct (get_pte_pa cfg_4k vm1 0 2097152 2)
    as [[[pa' pen'] vm2]|] eqn:E2; [| rewrite <- Hvm1 in E2; vm_compute in E2; discriminate].
  exists pa, pen, vm1, pa', pen', vm2. split; [reflexivity |].
  destruct (get_pte_pa_penalty cfg_4k _ _ _ _ _ _ _ E1) as (Hnew1 & _).
  destruct (get_pte_pa_penalty cfg_4k _ _ _ _ _ _ _ E2) as (Hnew2 & _).
  split; [apply Hnew1; reflexivity |]. split; [exact E2 |].
  apply Hnew2. rewrite <- Hvm1. vm_compute. reflexivity.
Defined.

(** C3, counterexample.  First, on the constructed four-level memory two
    level-1 requests of requester 0 whose addresses agree on every bit
    above the level-1 index field (bits 21 and up) and differ inside it:
    the second still pays the penalty.  Second, with a penalty of 0 a
    repeated request returns a penalty equal to [minor_fault_penalty]
    although its entry exists. *)
Lemma get_pte_pa_penalty_counterexample :
  (exists pa1 vm1 pa2 vm2,
     construct cfg_4k = Some (initial_vmem cfg_4k) /\
     get_pte_pa cfg_4k (initial_vmem cfg_4k) 0 0 1 = Some (pa1, 200, vm1) /\
     shamt cfg_4k 1 + lg2_pte_count cfg_4k = 21 /\
     Z.shiftr 4096 (shamt cfg_4k 1 + lg2_pte_count cfg_4k)
       = Z.shiftr 0 (shamt cfg_4k 1 + lg2_pte_count cfg_4k) /\
     get_pte_pa cfg_4k vm1 0 4096 1 = Some (pa2, minor_fault_penalty cfg_4k, vm2) /\
     minor_fault_penalty cfg_4k = 200) /\
  (exists pa1 vm1 pa2 vm2,
     construct cfg_4k_free = Some (initial_vmem cfg_4k_free) /\
     get_pte_pa cfg_4k_free (initial_vmem cfg_4k_free) 0 0 1 = Some (pa1, 0, vm1) /\
     is_Some (page_table vm1 !! pte_key cfg_4k_free 0 0 1) /\
     get_pte_pa cfg_4k_free vm1 0 0 1
       = Some (pa2, minor_fault_penalty cfg_4k_free, vm2)).
Proof.
  split.
  - eexists _, _, _, _. split; [reflexivity |].
    split; [vm_compute; reflexivity |]. split; [reflexivity |]. split; [reflexivity |].
    split; [vm_compute; reflexivity | reflexivity].
  - eexists _, _, _, _. split; [reflexivity |].
    split; [vm_compute; reflexivity |].
    split; [vm_compute; eauto |]. vm_compute; reflexivity.
Qed.

(** After a call that returned, its key is in the PTE-location map and
    the address returned was computed from the entry found there. *)
Lemma get_pte_pa_entry (cfg : config) (vm : VirtualMemory)
    (cpu_num vaddr level pa pen : Z) (vm1 : VirtualMemory) :
  get_pte_pa cfg vm cpu_num vaddr level = Some (pa, pen, vm1) ->
  exists p, page_table vm1 !! pte_key cfg cpu_num vaddr level = Some p /\
            pa = pte_paddr cfg p vaddr level.
Proof.
  intros E1.
  destruct (activate_pte_page cfg vm) as [vm0|] eqn:Ha.
  2:{ rewrite get_pte_pa_abort in E1 by assumption. discriminate. }
  destruct (activate_page_table _ _ _ Ha) as (Hpt & _).
  destruct (page_table vm !! pte_key cfg cpu_num vaddr level) as [p|] eqn:Hk.
  - rewrite (get_pte_pa_hit _ _ _ _ _ _ _ Ha Hk) in E1. injection E1 as <- <- <-.
    exists p. rewrite Hpt. auto.
  - rewrite (get_pte_pa_miss _ _ _ _ _ _ Ha Hk) in E1. injection E1 as <- <- <-.
    eexists. cbn [page_table]. rewrite lookup_insert_eq. auto.
Qed.

(** C4: with 2 KiB PTE pages in 4 KiB pages a pool page holds two PTE
    pages.  On the constructed memory the first two requests create the
    two slots of pool page 256 and the cursor wraps to 0.  The next two
    requests only look the first entry up (penalty 0, map unchanged), yet
    each takes a page from the pool: 257, then 258 while 257 holds no
    entry. *)
Theorem get_pte_pa_takes_page_on_lookup :
  exists pa pb vm2 vm3 vm4,
    construct cfg_2k = Some (initial_vmem cfg_2k) /\
    get_pte_pa_seq cfg_2k (initial_vmem cfg_2k) [(0, 0, 1); (0, 4096, 1)]
      = Some ([(pa, 200); (pb, 200)], vm2) /\
    (value (next_ppage vm2) = 257 /\ value (next_pte_page vm2) = 0) /\
    get_pte_pa cfg_2k vm2 0 0 1 = Some (pa, 0, vm3) /\
    (value (active_pte_page vm3) = 257 /\ value (next_ppage vm3) = 258 /\
     page_table vm3 = page_table vm2) /\
    get_pte_pa cfg_2k vm3 0 0 1 = Some (pa, 0, vm4) /\
    (value (active_pte_page vm4) = 258 /\ value (next_ppage vm4) = 259 /\
     page_table vm4 = page_table vm2).
Proof.
  eexists _, _, _, _, _. split; [reflexivity |].
  split; [vm_compute; reflexivity |]. split; [split; reflexivity |].
  split; [vm_compute; reflexivity |]. split; [repeat split; reflexivity |].
  split; [vm_compute; reflexivity |]. repeat split; reflexivity.
Qed.

(** C10: two calls of [get_pte_pa] in a row with the same arguments, of
    which the second aborts.  The one-level memory with 4 KiB PTE pages is
    constructed with a pool of 256 pages.  After 255 pages were
    translated the pool holds one page.  A PTE request takes it and
    creates its entry; the same request once more finds its entry in the
    map, yet aborts instead of returning the same address with penalty 0,
    because the pool is asked for a page before the map is consulted. *)
Theorem get_pte_pa_repeat_aborts :
  construct cfg_one_level = Some (initial_vmem cfg_one_level) /\
  match va_to_pa_seq cfg_one_level (initial_vmem cfg_one_level) (touch_pages 255) with
  | Some (_, vm1) =>
    free_pages vm1 = 1 /\
    match get_pte_pa cfg_one_level vm1 0 0 1 with
    | Some (pa, pen, vm2) =>
      pen = 200 /\
      is_Some (page_table vm2 !! pte_key cfg_one_level 0 0 1) /\
      get_pte_pa cfg_one_level vm2 0 0 1 = None
    | None => False
    end
  | None => False
  end.
Proof. split; [reflexivity |]. vm_compute. repeat split; eauto. Qed.

(** ** The claims on the configuration *)

Lemma reassemble_ext cfg v1 v2 (m : nat) :
  value (page_offset cfg (address v1)) = value (page_offset cfg (address v2)) ->
  (forall level, 1 <= level <= Z.of_nat m ->
     get_offset cfg v1 level = get_offset cfg v2 level) ->
  reassemble cfg v1 m = reassemble cfg v2 m.
Proof.
  intros Hoff. induction m as [|m IH]; intros Hf; cbn [reassemble]; [exact Hoff |].
  rewrite IH by (intros; apply Hf; lia). rewrite Hf by lia. reflexivity.
Qed.

(** C6 (amended): in a configuration that passes construction, the index
    field of level 1 starts at log2(page size), each field is as wide as
    the logarithm of the number of 8-byte entries of a PTE page, which is
    log2(PTE-page size) - 3, and the next level's field starts where it
    ends, so the fields tile the bits from the page offset up to
    [shamt (pt_levels + 1)], which is within the address; [get_offset]
    reads exactly those bits; and the page offset together with the fields
    of all levels, each put back at its [shamt], is the address below that
    bit.  Hence two addresses with the same page offset and the same
    fields agree there. *)
Theorem index_fields_tile_address (cfg : config) (vm : VirtualMemory) (vaddr : Z) :
  construct cfg = Some vm -> 0 <= pt_levels cfg < 2 ^ 32 ->
  shamt cfg 1 = LOG2_PAGE_SIZE cfg /\
  (lg2_pte_count cfg = lg2 (pte_page_size cfg) - 3 /\
   pte_page_size cfg = 8 * 2 ^ lg2_pte_count cfg) /\
  (forall level, 1 <= level <= pt_levels cfg ->
     shamt cfg level = LOG2_PAGE_SIZE cfg + lg2_pte_count cfg * (level - 1) /\
     shamt cfg (level + 1) = shamt cfg level + lg2_pte_count cfg /\
     get_offset cfg vaddr level
     = (vaddr / 2 ^ shamt cfg level) mod 2 ^ lg2_pte_count cfg) /\
  shamt cfg (pt_levels cfg + 1) <= 64 /\
  reassemble cfg vaddr (Z.to_nat (pt_levels cfg))
    = vaddr mod 2 ^ shamt cfg (pt_levels cfg + 1) /\
  (forall v2,
     value (page_offset cfg (address v2)) = value (page_offset cfg (address vaddr)) ->
     (forall level, 1 <= level <= pt_levels cfg ->
        get_offset cfg v2 level = get_offset cfg vaddr level) ->
     v2 mod 2 ^ shamt cfg (pt_levels cfg + 1)
       = vaddr mod 2 ^ shamt cfg (pt_levels cfg + 1)).
Proof.
  intros E Hn.
  destruct (construct_valid cfg vm E Hn) as (HL & Hk & _ & Hfit & _).
  destruct (construct_sizes cfg vm E) as (_ & _ & Hk3 & Hc & Hb).
  assert (Htop : shamt cfg (pt_levels cfg + 1)
                 = LOG2_PAGE_SIZE cfg + lg2_pte_count cfg * pt_levels cfg).
  { rewrite (shamt_value cfg HL) by (try lia; nia). f_equal. f_equal. lia. }
  assert (Hre : forall v, reassemble cfg v (Z.to_nat (pt_levels cfg))
                          = v mod 2 ^ shamt cfg (pt_levels cfg + 1)).
  { intros v. rewrite Htop, (reassemble_value cfg HL) by (try lia; nia).
    rewrite Z2Nat.id by lia. reflexivity. }
  split. { rewrite (shamt_value cfg HL) by (try lia; nia). lia. }
  split. { split; [exact Hk3 | rewrite <- Hc; exact Hb]. }
  split.
  { intros level Hlv.
    split; [apply (shamt_value cfg HL); try lia; nia |].
    split; [rewrite !(shamt_value cfg HL) by (try lia; nia); lia |].
    apply (get_offset_value cfg HL); try lia; nia. }
  split; [lia |]. split; [apply Hre |].
  intros v2 Hoff Hf. rewrite <- !Hre.
  apply reassemble_ext; [exact Hoff |]. intros level Hlv. apply Hf. lia.
Qed.

(** C6, witness: the four-level configuration with 4 KiB PTE pages of 512
    entries: fields of 9 bits at bits 12, 21, 30 and 39. *)
Lemma index_fields_tile_address_witness :
  shamt cfg_4k 1 = 12 /\ shamt cfg_4k 2 = 21 /\ shamt cfg_4k (4 + 1) = 48 /\
  reassemble cfg_4k 3735928559 4 = 3735928559 mod 2 ^ 48.
Proof.
  destruct (index_fields_tile_address cfg_4k (initial_vmem cfg_4k) 3735928559)
    as (H1 & _ & _ & _ & Hre & _).
  - reflexivity.
  - cbn. lia.
  - split; [exact H1 |]. split; [reflexivity |]. split; [reflexivity | exact Hre].
Defined.

(** C6, counterexample: in the four-level configuration with 4 KiB PTE
    pages the field of level 2 starts at bit 21, not at
    log2(page size) + log2(PTE-page size) = 24, and the level-1 field of
    0xdeadbeef is the 9 bits 219, not the 12 bits 2779. *)
Lemma shamt_not_log2_page_bytes :
  construct cfg_4k = Some (initial_vmem cfg_4k) /\
  lg2 (pte_page_size cfg_4k) = 12 /\
  shamt cfg_4k 2 = 21 /\
  LOG2_PAGE_SIZE cfg_4k + lg2 (pte_page_size cfg_4k) * (2 - 1) = 24 /\
  get_offset cfg_4k 3735928559 1 = 219 /\
  (3735928559 / 2 ^ shamt cfg_4k 1) mod 2 ^ lg2 (pte_page_size cfg_4k) = 2779.
Proof. repeat split; reflexivity. Qed.

(** C5, witness: the constructed two-level memory and one translation
    on it. *)
Lemma pool_invariant_preserved_witness :
  pool_invariant (initial_vmem cfg_2k) /\
  ppage_front (initial_vmem cfg_2k) = Some (next_ppage (initial_vmem cfg_2k)) /\
  exists pa pen vm',
    va_to_pa cfg_2k (initial_vmem cfg_2k) 0 0 = Some (pa, pen, vm') /\
    pool_invariant vm'.
Proof.
  destruct (pool_invariant_preserved cfg_2k) as (Hc & Hs & _ & Hf).
  assert (H0 : pool_invariant (initial_vmem cfg_2k)) by (apply Hc; reflexivity).
  split; [exact H0 |]. split.
  - apply (Hf _ (65536 - 256)); [reflexivity | lia].
  - destruct (va_to_pa cfg_2k (initial_vmem cfg_2k) 0 0) as [[[pa pen] vm']|] eqn:E;
      [| vm_compute in E; discriminate].
    exists pa, pen, vm'. split; [reflexivity |].
    apply (Hs _ _ H0). eapply step_va_to_pa. exact E.
Defined.

Lemma max_pow2 (a b : Z) : 0 <= a -> 0 <= b -> Z.max (2 ^ a) (2 ^ b) = 2 ^ Z.max a b.
Proof.
  intros Ha Hb. destruct (Z.le_gt_cases a b) as [H | H].
  - rewrite (Z.max_r a b) by lia. apply Z.max_r. apply Z.pow_le_mono_r; lia.
  - rewrite (Z.max_l a b) by lia. apply Z.max_l. apply Z.pow_le_mono_r; lia.
Qed.

(** C8 (amended): in a configuration that passes construction,
    [last_ppage] is the page number equal to the number of 8-byte entries
    of a PTE page (the PTE-page size over 8) raised to the number of
    levels, and [next_ppage] is the first page above a reserved region of
    max(one page, one mebibyte) bytes at the bottom of memory. *)
Theorem construct_pool_bounds (cfg : config) (vm : VirtualMemory) :
  construct cfg = Some vm -> 0 <= pt_levels cfg < 2 ^ 32 ->
  pte_page_size cfg = 8 * pte_count cfg /\
  value (last_ppage vm) = pte_count cfg ^ pt_levels cfg /\
  value (next_ppage vm) * 2 ^ LOG2_PAGE_SIZE cfg
    = Z.max (2 ^ LOG2_PAGE_SIZE cfg) (2 ^ 20).
Proof.
  intros E Hn.
  destruct (construct_valid cfg vm E Hn) as (HL & _ & _ & _ & Hlast & Hnext).
  destruct (construct_sizes cfg vm E) as (_ & _ & _ & _ & Hb).
  split; [exact Hb |].
  split; [exact Hlast |]. rewrite Hnext.
  rewrite max_pow2 by lia.
  replace (Z.max (LOG2_PAGE_SIZE cfg) 20)
    with ((Z.max (LOG2_PAGE_SIZE cfg) 20 - LOG2_PAGE_SIZE cfg) + LOG2_PAGE_SIZE cfg) at 1 by lia.
  rewrite Z.pow_add_r by lia.
  rewrite Z.div_mul by (apply Z.pow_nonzero; lia).
  rewrite <- Z.pow_add_r by lia. f_equal. lia.
Qed.

(** C8, witness: the two-level configuration with 2 KiB PTE pages of 256
    entries. *)
Lemma construct_pool_bounds_witness :
  value (last_ppage (initial_vmem cfg_2k)) = 256 ^ 2 /\
  value (next_ppage (initial_vmem cfg_2k)) * 2 ^ 12 = Z.max (2 ^ 12) (2 ^ 20).
Proof.
  destruct (construct_pool_bounds cfg_2k (initial_vmem cfg_2k)) as (_ & Hlast & Hnext).
  - reflexivity.
  - cbn. lia.
  - split; [exact Hlast | exact Hnext].
Defined.

(** C8, counterexample: with 4 KiB pages, 2 KiB PTE pages and two levels
    construction succeeds and [last_ppage] is page 256^2 = 65536, which is
    neither the page size raised to the number of levels nor, taken as a
    byte address, equal to it. *)
Lemma last_ppage_not_page_size_power :
  construct cfg_2k = Some (initial_vmem cfg_2k) /\
  value (last_ppage (initial_vmem cfg_2k)) = 65536 /\
  (2 ^ LOG2_PAGE_SIZE cfg_2k) ^ pt_levels cfg_2k = 16777216 /\
  value (last_ppage (initial_vmem cfg_2k))
    < (2 ^ LOG2_PAGE_SIZE cfg_2k) ^ pt_levels cfg_2k /\
  (2 ^ LOG2_PAGE_SIZE cfg_2k) ^ pt_levels cfg_2k
    < value (last_ppage (initial_vmem cfg_2k)) * 2 ^ LOG2_PAGE_SIZE cfg_2k.
Proof. repeat split; reflexivity. Qed.

(** ** The claim on the walker *)



(** The same two walks, computed: five reads, then one. *)
Example five_level_walk_computed :
  match walk cfg_five 0 (new_walker cfg_five 1 1 vm_five) 0 3735928559 with
  | Some (pa, lat, w1) =>
    match walk cfg_five 0 w1 0 3735928559 with
    | Some (pa', lat', w2) =>
      (length (ptw_issued w1), lat, length (ptw_issued w2), lat', pa =? pa')
    | None => (0%nat, 0, 0%nat, 0, false)
    end
  | None => (0%nat, 0, 0%nat, 0, false)
  end = (5%nat, 6, 6%nat, 0, true).
Proof. vm_compute. reflexivity. Qed.

(** ** Runs of operations *)

(** What one operation leaves alone. *)
Lemma va_to_pa_frame cfg vm cpu_num vaddr pa pen vm' :
  va_to_pa cfg vm cpu_num vaddr = Some (pa, pen, vm') ->
  page_table vm' = page_table vm /\ next_pte_page vm' = next_pte_page vm /\
  active_pte_page vm' = active_pte_page vm /\
  (forall k p, vpage_to_ppage_map vm !! k = Some p -> vpage_to_ppage_map vm' !! k = Some p).
Proof.
  intros E.
  destruct (Z.le_gt_cases (value (last_ppage vm)) (value (next_ppage vm))) as [Hle | Hlt].
  { rewrite va_to_pa_abort in E by assumption. discriminate. }
  destruct (vpage_to_ppage_map vm !! vkey cfg cpu_num vaddr) as [p|] eqn:Hk.
  - rewrite (va_to_pa_hit cfg _ _ _ _ Hlt Hk) in E. injection E as <- <- <-. auto.
  - rewrite (va_to_pa_miss cfg _ _ _ Hlt Hk) in E. injection E as <- <- <-.
    cbn. repeat split; try reflexivity.
    intros k p Hkp. rewrite lookup_insert_ne; [exact Hkp | congruence].
Qed.

Lemma get_pte_pa_frame cfg vm cpu_num vaddr level pa pen vm' :
  get_pte_pa cfg vm cpu_num vaddr level = Some (pa, pen, vm') ->
  vpage_to_ppage_map vm' = vpage_to_ppage_map vm /\
  (forall k s, page_table vm !! k = Some s -> page_table vm' !! k = Some s).
Proof.
  intros E.
  destruct (activate_pte_page cfg vm) as [vm0|] eqn:Ha.
  2:{ rewrite get_pte_pa_abort in E by assumption. discriminate. }
  destruct (activate_page_table _ _ _ Ha) as (Hpt & Hv & _).
  destruct (page_table vm !! pte_key cfg cpu_num vaddr level) as [p|] eqn:Hk.
  - rewrite (get_pte_pa_hit _ _ _ _ _ _ _ Ha Hk) in E. injection E as <- <- <-.
    split; [exact Hv |]. intros k s. rewrite Hpt. auto.
  - rewrite (get_pte_pa_miss _ _ _ _ _ _ Ha Hk) in E. injection E as <- <- <-.
    cbn. split; [exact Hv |]. intros k s Hks. rewrite Hpt.
    rewrite lookup_insert_ne; [exact Hks | congruence].
Qed.

Lemma vm_steps_lookup (cfg : config) (vm vm' : VirtualMemory) :
  vm_steps cfg vm vm' ->
  (forall k p, vpage_to_ppage_map vm !! k = Some p ->
               vpage_to_ppage_map vm' !! k = Some p) /\
  (forall k s, page_table vm !! k = Some s -> page_table vm' !! k = Some s).
Proof.
  induction 1 as [vm | vm vm1 vm2 Hstep _ [IHv IHp]]; [auto |].
  destruct Hstep as [c v pa pen vm1 E | c v l pa pen vm1 E | n E].
  - destruct (va_to_pa_frame _ _ _ _ _ _ _ E) as (Hpt & _ & _ & Hv).
    split; [intros; apply IHv, Hv; assumption |].
    intros k s Hks. apply IHp. rewrite Hpt. exact Hks.
  - destruct (get_pte_pa_frame _ _ _ _ _ _ _ _ E) as (Hv & Hp).
    split; [| intros; apply IHp, Hp; assumption].
    intros k p Hkp. apply IHv. rewrite Hv. exact Hkp.
  - auto.
Qed.

Lemma va_to_pa_entry cfg vm cpu_num vaddr pa pen vm1 :
  va_to_pa cfg vm cpu_num vaddr = Some (pa, pen, vm1) ->
  exists p, vpage_to_ppage_map vm1 !! vkey cfg cpu_num vaddr = Some p /\
            pa = va_paddr cfg p vaddr.
Proof.
  intros E.
  destruct (Z.le_gt_cases (value (last_ppage vm)) (value (next_ppage vm))) as [Hle | Hlt].
  { rewrite va_to_pa_abort in E by assumption. discriminate. }
  destruct (vpage_to_ppage_map vm !! vkey cfg cpu_num vaddr) as [p|] eqn:Hk.
  - rewrite (va_to_pa_hit cfg _ _ _ _ Hlt Hk) in E. injection E as <- <- <-. eauto.
  - rewrite (va_to_pa_miss cfg _ _ _ Hlt Hk) in E. injection E as <- <- <-.
    eexists. cbn [vpage_to_ppage_map]. rewrite lookup_insert_eq. eauto.
Qed.

Lemma pool_wf_step cfg vm vm' :
  0 <= LOG2_PAGE_SIZE cfg <= 64 ->
  pool_wf cfg vm -> vm_step cfg vm vm' ->
  pool_wf cfg vm' /\ last_ppage vm' = last_ppage vm /\
  value (next_ppage vm) <= value (next_ppage vm') <= value (next_ppage vm) + 1.
Proof.
  intros HL (Hn & Hl & Hnl) Hstep.
  assert (Hinc : value (next_ppage vm) < value (last_ppage vm) ->
                 is_page_number cfg (incr (next_ppage vm)) /\
                 value (incr (next_ppage vm)) = value (next_ppage vm) + 1).
  { intros Hlt.
    assert (Hroom : value (next_ppage vm) + 1 < 2 ^ (address_bits - LOG2_PAGE_SIZE cfg))
      by (destruct Hl as (_ & _ & ?); lia).
    rewrite (incr_page_number cfg HL _ Hn Hroom).
    destruct Hn as (? & ? & ?).
    unfold is_page_number. cbn [upper lower value]. repeat split; try reflexivity; lia. }
  destruct Hstep as [c v pa pen vm1 E | c v l pa pen vm1 E | n E].
  - apply va_to_pa_pool in E as (Hlt & Hlast & [Hnx | Hnx]).
    + unfold pool_wf. rewrite Hnx, Hlast.
      split; [split; [exact Hn | split; [exact Hl | exact Hnl]] |]. split; [reflexivity | lia].
    + destruct (Hinc Hlt) as (Hi & Hv). unfold pool_wf. rewrite Hnx, Hlast, Hv.
      split; [split; [exact Hi | split; [exact Hl | lia]] |]. split; [reflexivity | lia].
  - apply get_pte_pa_pool in E as (Hlast & [Hnx | [Hnx Hlt]]).
    + unfold pool_wf. rewrite Hnx, Hlast.
      split; [split; [exact Hn | split; [exact Hl | exact Hnl]] |]. split; [reflexivity | lia].
    + destruct (Hinc Hlt) as (Hi & Hv). unfold pool_wf. rewrite Hnx, Hlast, Hv.
      split; [split; [exact Hi | split; [exact Hl | lia]] |]. split; [reflexivity | lia].
  - split; [split; [exact Hn | split; [exact Hl | exact Hnl]] |]. split; [reflexivity | lia].
Qed.

(** ** PTE-page slots *)

Section PteSlots.

Variable cfg : config.
Local Abbreviation L := (LOG2_PAGE_SIZE cfg).
Local Abbreviation lg := (lg2_pte cfg).
Local Abbreviation cap := (pte_pages_per_page cfg).
Hypothesis HL : L <= 64.
Hypothesis Hlg : 0 <= lg <= L.

Lemma cap_pos : 0 < cap.
Proof. unfold pte_pages_per_page. apply Z.pow_pos_nonneg; lia. Qed.

Lemma page_offset_zero : value (page_offset cfg (address 0)) = 0.
Proof.
  reflexivity.
Qed.

Lemma page_offset_cursor c :
  is_pte_cursor cfg c -> value (page_offset cfg c) = value c * 2 ^ lg.
Proof.
  intros (Hu & Hl & Hv). unfold pte_pages_per_page in Hv.
  unfold page_offset, convert, in_place, slice_of_value. cbn [value]. rewrite Hl.
  unfold bitmask. rewrite Z.sub_0_r, Z.max_r by lia.
  rewrite Z.shiftr_0_r, Z.shiftl_mul_pow2, Z.land_ones by lia.
  apply Z.mod_small.
  assert (2 ^ L = 2 ^ (L - lg) * 2 ^ lg) by (rewrite <- Z.pow_add_r by lia; f_equal; lia).
  assert (0 < 2 ^ lg) by (apply Z.pow_pos_nonneg; lia).
  nia.
Qed.

Lemma cursor_is_zero_value vm :
  is_pte_cursor cfg (next_pte_page vm) ->
  cursor_is_zero cfg vm = (value (next_pte_page vm) =? 0).
Proof.
  intros Hc. unfold cursor_is_zero. rewrite page_offset_zero, page_offset_cursor by assumption.
  assert (0 < 2 ^ lg) by (apply Z.pow_pos_nonneg; lia).
  destruct Hc as (_ & _ & Hv).
  destruct (Z.eqb_spec (value (next_pte_page vm)) 0) as [-> | Hne].
  - reflexivity.
  - apply Z.eqb_neq. nia.
Qed.

Lemma incr_cursor c :
  is_pte_cursor cfg c ->
  incr c = mk_slice L lg ((value c + 1) mod cap).
Proof.
  intros (Hu & Hl & Hv). unfold incr, slice_of_value. rewrite Hu, Hl. f_equal.
  unfold bitmask, pte_pages_per_page. rewrite Z.max_r by lia. apply Z.land_ones. lia.
Qed.

Lemma incr_cursor_is_cursor c : is_pte_cursor cfg c -> is_pte_cursor cfg (incr c).
Proof.
  intros Hc. rewrite incr_cursor by assumption. unfold is_pte_cursor. cbn.
  repeat split; try reflexivity; apply Z.mod_pos_bound, cap_pos.
Qed.

Lemma splice_slot a c :
  is_page_number cfg a -> is_pte_cursor cfg c ->
  splice a c = mk_slice address_bits lg (value a * cap + value c).
Proof.
  intros (Hau & Hal & Hav) (Hcu & Hcl & Hcv).
  unfold pte_pages_per_page in *. unfold address_bits in *.
  unfold splice, in_place, slice_of_value. rewrite Hau, Hal, Hcu, Hcl.
  rewrite (Z.max_l 64 L), (Z.min_r L lg) by lia. f_equal.
  unfold bitmask. rewrite !Z.max_r by lia.
  assert (Hcap : 0 < 2 ^ (L - lg)) by (apply Z.pow_pos_nonneg; lia).
  assert (Hsum : Z.shiftr (Z.lor (Z.ldiff (Z.shiftl (value a) L)
                                           (Z.shiftl (Z.ones (L - lg)) lg))
                                  (Z.shiftl (value c) lg)) lg
                 = value a * 2 ^ (L - lg) + value c).
  { rewrite <- (Z.shiftl_mul_pow2 (value a)) by lia.
    rewrite <- Z.or_to_plus.
    - destruct Hlg as [Hlg0 Hlg1]. bits.
    - assert (Hc : value c = Z.land (value c) (Z.ones (L - lg)))
        by (rewrite Z.land_ones by lia; symmetry; apply Z.mod_small; lia).
      rewrite Hc. destruct Hlg as [Hlg0 Hlg1]. bits. }
  rewrite Hsum. rewrite Z.land_ones by lia. apply Z.mod_small.
  assert (2 ^ (64 - lg) = 2 ^ (64 - L) * 2 ^ (L - lg))
    by (rewrite <- Z.pow_add_r by lia; f_equal; lia).
  nia.
Qed.

Lemma is_page_number_page_number a : is_page_number cfg (page_number cfg a).
Proof.
  unfold is_page_number, page_number, convert, slice_of_value. cbn [upper lower value].
  split; [reflexivity |]. split; [reflexivity |].
  unfold bitmask, address_bits. rewrite Z.max_r by lia. rewrite Z.land_ones by lia.
  apply Z.mod_pos_bound. apply Z.pow_pos_nonneg; lia.
Qed.

Lemma is_page_number_incr p :
  is_page_number cfg p -> value p + 1 < 2 ^ (address_bits - L) ->
  is_page_number cfg (incr p) /\ value (incr p) = value p + 1.
Proof.
  intros Hp Hlt. assert (H0L : 0 <= L <= 64) by lia.
  rewrite (incr_page_number cfg H0L p Hp Hlt).
  destruct Hp as (Hu & Hl & Hv). unfold is_page_number. cbn. repeat split; lia.
Qed.

Lemma slot_page_value a c :
  0 <= c < cap -> (a * cap + c) / cap = a.
Proof.
  intros Hc. symmetry. apply (Z.div_unique_pos _ _ a c); [exact Hc | ring].
Qed.

Lemma slot_page_lt s n : 0 <= value s -> slot_page cfg s < n -> value s < n * cap.
Proof.
  intros H0 Hlt. unfold slot_page in Hlt. pose proof cap_pos as Hc.
  pose proof (Z.mul_div_le (value s) cap Hc).
  pose proof (Z.mod_pos_bound (value s) cap Hc).
  pose proof (Z.div_mod (value s) cap ltac:(lia)). nia.
Qed.

Lemma vm_inv_va_to_pa base vm cpu_num vaddr pa pen vm' :
  vm_inv cfg base vm ->
  va_to_pa cfg vm cpu_num vaddr = Some (pa, pen, vm') ->
  vm_inv cfg base vm'.
Proof.
  intros [Hpool Hbase Hcur Hact Hdata Hdinj Hslot Hsinj Hdis] E.
  destruct (Z.le_gt_cases (value (last_ppage vm)) (value (next_ppage vm))) as [Hle | Hlt].
  { rewrite va_to_pa_abort in E by assumption. discriminate. }
  destruct (vpage_to_ppage_map vm !! vkey cfg cpu_num vaddr) as [p|] eqn:Hk.
  { rewrite (va_to_pa_hit cfg _ _ _ _ Hlt Hk) in E. injection E as <- <- <-.
    constructor; assumption. }
  rewrite (va_to_pa_miss cfg _ _ _ Hlt Hk) in E. injection E as <- <- <-.
  destruct Hpool as (Hn & Hl & Hnl).
  assert (Hroom : value (next_ppage vm) + 1 < 2 ^ (address_bits - L))
    by (destruct Hl as (_ & _ & ?); lia).
  destruct (is_page_number_incr _ Hn Hroom) as (Hn' & Hv').
  destruct Hact as (Ha & Halt & Hab).
  constructor; cbn [vpage_to_ppage_map page_table next_pte_page active_pte_page
                    next_ppage last_ppage].
  - unfold pool_wf. cbn [next_ppage last_ppage]. split; [exact Hn' | split; [exact Hl | lia]].
  - lia.
  - exact Hcur.
  - split; [exact Ha |]. split; [lia | exact Hab].
  - intros k p. rewrite lookup_insert. destruct (decide (vkey cfg cpu_num vaddr = k)).
    + intros [= <-]. split; [exact Hn |]. lia.
    + intros Hkp. destruct (Hdata k p Hkp) as (? & ? & ?). split; [assumption |]. lia.
  - intros k1 k2 p1 p2. rewrite !lookup_insert.
    destruct (decide (vkey cfg cpu_num vaddr = k1)), (decide (vkey cfg cpu_num vaddr = k2)).
    + congruence.
    + intros [= <-] H2 Heq. destruct (Hdata k2 p2 H2) as (_ & ? & _). lia.
    + intros H1 [= <-] Heq. destruct (Hdata k1 p1 H1) as (_ & ? & _). lia.
    + apply Hdinj.
  - intros k s Hks. destruct (Hslot k s Hks) as (? & ? & ?).
    split; [assumption |]. split; [lia | assumption].
  - exact Hsinj.
  - intros k p k' s. rewrite lookup_insert.
    destruct (decide (vkey cfg cpu_num vaddr = k)).
    + intros [= <-] Hks. destruct (Hslot k' s Hks) as (_ & ? & _). lia.
    + apply Hdis.
Qed.

Lemma cursor_next c :
  0 <= c < cap ->
  ((c + 1) mod cap = c + 1 /\ c + 1 < cap) \/ ((c + 1) mod cap = 0 /\ c + 1 = cap).
Proof.
  intros Hc. destruct (Z.eq_dec (c + 1) cap) as [He | Hne].
  - right. split; [| exact He]. rewrite He. apply Z_mod_same_full.
  - left. split; [apply Z.mod_small |]; lia.
Qed.

(** A new slot is written at the cursor of the active PTE page and the
    cursor moves on. *)
Lemma vm_inv_insert base vm0 key :
  pool_wf cfg vm0 ->
  0 <= base <= value (next_ppage vm0) ->
  is_pte_cursor cfg (next_pte_page vm0) ->
  is_page_number cfg (active_pte_page vm0) ->
  base <= value (active_pte_page vm0) < value (next_ppage vm0) ->
  (forall k p, vpage_to_ppage_map vm0 !! k = Some p ->
     is_page_number cfg p /\ base <= value p < value (next_ppage vm0) /\
     value p <> value (active_pte_page vm0)) ->
  (forall k1 k2 p1 p2,
     vpage_to_ppage_map vm0 !! k1 = Some p1 -> vpage_to_ppage_map vm0 !! k2 = Some p2 ->
     value p1 = value p2 -> k1 = k2) ->
  (forall k s, page_table vm0 !! k = Some s ->
     is_pte_slot cfg s /\ base <= slot_page cfg s < value (next_ppage vm0) /\
     value s < value (active_pte_page vm0) * cap + value (next_pte_page vm0)) ->
  (forall k1 k2 s1 s2,
     page_table vm0 !! k1 = Some s1 -> page_table vm0 !! k2 = Some s2 ->
     value s1 = value s2 -> k1 = k2) ->
  (forall k p k' s,
     vpage_to_ppage_map vm0 !! k = Some p -> page_table vm0 !! k' = Some s ->
     slot_page cfg s <> value p) ->
  vm_inv cfg base
    {| vpage_to_ppage_map := vpage_to_ppage_map vm0;
       page_table :=
         <[key := splice (active_pte_page vm0) (next_pte_page vm0)]> (page_table vm0);
       next_pte_page := incr (next_pte_page vm0);
       active_pte_page := active_pte_page vm0;
       next_ppage := next_ppage vm0;
       last_ppage := last_ppage vm0 |}.
Proof.
  intros Hpool Hbase Hcur Ha Hab Hdata Hdinj Hslot Hsinj Hdis.
  pose proof cap_pos as Hcap.
  rewrite (splice_slot _ _ Ha Hcur).
  rewrite (incr_cursor _ Hcur).
  destruct Hcur as (Hcu & Hcl & Hcv).
  destruct (cursor_next _ Hcv) as [[Hm Hlt] | [Hm Heq]]; rewrite Hm.
  all: set (a := value (active_pte_page vm0)) in *.
  all: set (c := value (next_pte_page vm0)) in *.
  all: assert (Hnew : is_pte_slot cfg (mk_slice address_bits lg (a * cap + c)) /\
                      slot_page cfg (mk_slice address_bits lg (a * cap + c)) = a).
  1,3: (split; [| unfold slot_page; cbn [value]; apply slot_page_value; lia];
        unfold is_pte_slot; cbn [upper lower value];
        split; [reflexivity |]; split; [reflexivity |];
        destruct Ha as (_ & _ & Hav); unfold address_bits in *;
        fold a in Hav; unfold pte_pages_per_page in *;
        assert (2 ^ (64 - lg) = 2 ^ (64 - L) * 2 ^ (L - lg))
          by (rewrite <- Z.pow_add_r by lia; f_equal; lia);
        nia).
  all: destruct Hnew as (Hns & Hnp).
  all: constructor; cbn [vpage_to_ppage_map page_table next_pte_page active_pte_page
                         next_ppage last_ppage value].
  all: try assumption.
  all: try (unfold is_pte_cursor; cbn [upper lower value]; repeat split; lia).
  all: try (split; [exact Ha |]; split; [lia | intros; lia]).
  all: try (intros k s; rewrite lookup_insert; destruct (decide (key = k));
            [ intros [= <-]; split; [exact Hns |]; rewrite Hnp; split; [lia |];
              cbn [value]; intros; lia
            | intros Hks; destruct (Hslot k s Hks) as (Hs1 & Hs2 & Hs3);
              split; [exact Hs1 |]; split; [exact Hs2 |]; intros; fold a c in Hs3; lia ]).
  all: try (intros k1 k2 s1 s2; rewrite !lookup_insert;
            destruct (decide (key = k1)), (decide (key = k2));
            [ congruence
            | intros [= <-] H2 Heq'; destruct (Hslot k2 s2 H2) as (_ & _ & Hb);
              cbn [value] in Heq'; fold a c in Hb; lia
            | intros H1 [= <-] Heq'; destruct (Hslot k1 s1 H1) as (_ & _ & Hb);
              cbn [value] in Heq'; fold a c in Hb; lia
            | apply Hsinj ]).
  all: try (intros k p k' s Hkp; rewrite lookup_insert; destruct (decide (key = k'));
            [ intros [= <-]; rewrite Hnp; destruct (Hdata k p Hkp) as (_ & _ & Hne);
              fold a in Hne; lia
            | apply (Hdis k p k' s Hkp) ]).
Qed.

Lemma vm_inv_get_pte_pa base vm cpu_num vaddr level pa pen vm' :
  vm_inv cfg base vm ->
  get_pte_pa cfg vm cpu_num vaddr level = Some (pa, pen, vm') ->
  vm_inv cfg base vm'.
Proof.
  intros Hinv E. pose proof Hinv as [Hpool Hbase Hcur Hact Hdata Hdinj Hslot Hsinj Hdis].
  pose proof cap_pos as Hcap.
  destruct Hact as (Ha & Halt & Hab).
  destruct Hpool as (Hn & Hl & Hnl).
  pose proof (cursor_is_zero_value vm Hcur) as Hz.
  destruct (Z.eqb_spec (value (next_pte_page vm)) 0) as [Hc0 | Hc0].
  - (* the cursor reads zero: a page is taken first *)
    destruct (Z.le_gt_cases (value (last_ppage vm)) (value (next_ppage vm))) as [Hle | Hlt].
    { rewrite get_pte_pa_abort in E by (apply activate_abort; assumption). discriminate. }
    pose proof (activate_fresh cfg vm Hz Hlt) as Hact.
    assert (Hroom : value (next_ppage vm) + 1 < 2 ^ (address_bits - L))
      by (destruct Hl as (_ & _ & ?); lia).
    destruct (is_page_number_incr _ Hn Hroom) as (Hn' & Hv').
    destruct (page_table vm !! pte_key cfg cpu_num vaddr level) as [p|] eqn:Hk.
    + rewrite (get_pte_pa_hit _ _ _ _ _ _ _ Hact Hk) in E. injection E as <- <- <-.
      constructor; unfold with_fresh_pte_page, pool_wf;
        cbn [vpage_to_ppage_map page_table next_pte_page active_pte_page
             next_ppage last_ppage].
      * split; [exact Hn' | split; [exact Hl | lia]].
      * lia.
      * exact Hcur.
      * split; [exact Hn |]. split; [lia | intros; contradiction].
      * intros k q Hkq. destruct (Hdata k q Hkq) as (? & ? & ?).
        split; [assumption |]. lia.
      * exact Hdinj.
      * intros k s Hks. destruct (Hslot k s Hks) as (? & ? & ?).
        split; [assumption |]. split; [lia | intros; contradiction].
      * exact Hsinj.
      * exact Hdis.
    + rewrite (get_pte_pa_miss _ _ _ _ _ _ Hact Hk) in E. injection E as <- <- <-.
      apply (vm_inv_insert base (with_fresh_pte_page vm));
        unfold with_fresh_pte_page, pool_wf;
        cbn [vpage_to_ppage_map page_table next_pte_page active_pte_page
             next_ppage last_ppage].
      * split; [exact Hn' | split; [exact Hl | lia]].
      * lia.
      * exact Hcur.
      * exact Hn.
      * lia.
      * intros k q Hkq. destruct (Hdata k q Hkq) as (? & ? & ?).
        split; [assumption |]. lia.
      * exact Hdinj.
      * intros k s Hks. destruct (Hslot k s Hks) as (Hs1 & Hs2 & _).
        split; [assumption |]. split; [lia |].
        rewrite Hc0. destruct Hs1 as (_ & _ & ?).
        pose proof (slot_page_lt s (value (next_ppage vm))). lia.
      * exact Hsinj.
      * exact Hdis.
  - (* the cursor is inside the active PTE page *)
    pose proof (activate_keep cfg vm Hz) as Hact.
    destruct (page_table vm !! pte_key cfg cpu_num vaddr level) as [p|] eqn:Hk.
    + rewrite (get_pte_pa_hit _ _ _ _ _ _ _ Hact Hk) in E. injection E as <- <- <-.
      exact Hinv.
    + rewrite (get_pte_pa_miss _ _ _ _ _ _ Hact Hk) in E. injection E as <- <- <-.
      apply (vm_inv_insert base vm); try assumption.
      * split; [exact Hn | split; [exact Hl | exact Hnl]].
      * split; [apply Hab; assumption | exact Halt].
      * intros k s Hks. destruct (Hslot k s Hks) as (? & ? & Hb).
        split; [assumption |]. split; [assumption | apply Hb; assumption].
Qed.

Lemma vm_inv_step base vm vm' :
  vm_inv cfg base vm -> vm_step cfg vm vm' -> vm_inv cfg base vm'.
Proof.
  intros Hinv [c v pa pen vm1 E | c v l pa pen vm1 E | n E].
  - apply (vm_inv_va_to_pa base vm _ _ _ _ _ Hinv E).
  - apply (vm_inv_get_pte_pa base vm _ _ _ _ _ _ Hinv E).
  - exact Hinv.
Qed.

End PteSlots.

(** ** Filling fresh slots *)

Section Fresh.

Variable cfg : config.
Local Abbreviation L := (LOG2_PAGE_SIZE cfg).
Local Abbreviation lg := (lg2_pte cfg).
Local Abbreviation cap := (pte_pages_per_page cfg).
Hypothesis HL : L <= 64.
Hypothesis Hlg : 0 <= lg <= L.

Lemma slots_filled_step base k vm cpu_num vaddr level :
  0 <= base -> 0 <= k ->
  slots_filled cfg base k vm ->
  page_table vm !! pte_key cfg cpu_num vaddr level = None ->
  base + (k + 1 + cap - 1) / cap <= value (last_ppage vm) ->
  exists vm',
    get_pte_pa cfg vm cpu_num vaddr level
    = Some (pte_paddr cfg (pool_slot cfg base k) vaddr level,
            minor_fault_penalty cfg, vm') /\
    slots_filled cfg base (k + 1) vm' /\
    last_ppage vm' = last_ppage vm /\
    page_table vm' = <[pte_key cfg cpu_num vaddr level := pool_slot cfg base k]> (page_table vm).
Proof.
  intros Hb Hk0 (Hpool & Hcur & Ha & Hc & Hn & Hact) Hnone Hroom.
  pose proof (cap_pos cfg Hlg) as Hcap.
  destruct Hpool as (Hpn & Hpl & Hnl).
  pose proof (cursor_is_zero_value cfg HL Hlg vm Hcur) as Hz.
  pose proof (Z.div_mod k cap ltac:(lia)) as Hdm.
  pose proof (Z.mod_pos_bound k cap Hcap) as Hmb.
  assert (Hq : 0 <= k / cap) by (apply Z.div_pos; lia).
  assert (Hk1 : (k + 1) mod cap = (k mod cap + 1) mod cap)
    by (rewrite Zplus_mod_idemp_l; reflexivity).
  destruct (Z.eqb_spec (value (next_pte_page vm)) 0) as [Hc0 | Hc0].
  - (* a page is taken for the first slot of a new PTE page *)
    assert (Hm0 : k mod cap = 0) by lia.
    assert (Hnv : value (next_ppage vm) = base + k / cap).
    { rewrite Hn. f_equal. symmetry. apply (Z.div_unique_pos _ _ (k / cap) (cap - 1)); lia. }
    assert (Hup : (k + 1 + cap - 1) / cap = k / cap + 1).
    { symmetry. apply (Z.div_unique_pos _ _ (k / cap + 1) 0); lia. }
    assert (Hlt : value (next_ppage vm) < value (last_ppage vm)) by lia.
    assert (Hroom' : value (next_ppage vm) + 1 < 2 ^ (address_bits - L))
      by (destruct Hpl as (_ & _ & ?); lia).
    destruct (is_page_number_incr cfg HL Hlg _ Hpn Hroom') as (Hn' & Hv').
    pose proof (activate_fresh cfg vm Hz Hlt) as Hactv.
    rewrite (get_pte_pa_miss _ _ _ _ _ _ Hactv Hnone).
    unfold with_fresh_pte_page.
    cbn [vpage_to_ppage_map page_table next_pte_page active_pte_page next_ppage last_ppage].
    rewrite (splice_slot cfg HL Hlg _ _ Hpn Hcur).
    assert (Hslot : mk_slice address_bits lg (value (next_ppage vm) * cap
                                              + value (next_pte_page vm))
                    = pool_slot cfg base k).
    { unfold pool_slot. f_equal. rewrite Hnv, Hc0. nia. }
    rewrite Hslot. eexists. split; [reflexivity |].
    split; [| split; reflexivity].
    unfold slots_filled, pool_wf.
    cbn [vpage_to_ppage_map page_table next_pte_page active_pte_page next_ppage last_ppage].
    split; [split; [exact Hn' | split; [exact Hpl | lia]] |].
    split; [apply (incr_cursor_is_cursor cfg Hlg _ Hcur) |].
    split; [exact Hpn |].
    rewrite (incr_cursor cfg Hlg _ Hcur). cbn [value].
    split; [rewrite Hk1, Hc; reflexivity |].
    split; [lia |].
    intros Hne. rewrite Hnv. f_equal.
    destruct (cursor_next cfg 0 ltac:(lia)) as [[Hs Hs'] | [Hs Hs']].
    + apply (Z.div_unique_pos _ _ (k / cap) 1); lia.
    + exfalso. apply Hne. rewrite Hk1, Hm0. exact Hs.
  - (* the next slot of the active PTE page *)
    assert (Hm : k mod cap <> 0) by lia.
    specialize (Hact Hm).
    assert (Hnv : value (next_ppage vm) = base + k / cap + 1).
    { rewrite Hn. rewrite <- Z.add_assoc. f_equal. symmetry.
      apply (Z.div_unique_pos _ _ (k / cap + 1) (k mod cap - 1)); lia. }
    pose proof (activate_keep cfg vm Hz) as Hactv.
    rewrite (get_pte_pa_miss _ _ _ _ _ _ Hactv Hnone).
    rewrite (splice_slot cfg HL Hlg _ _ Ha Hcur).
    assert (Hslot : mk_slice address_bits lg (value (active_pte_page vm) * cap
                                              + value (next_pte_page vm))
                    = pool_slot cfg base k).
    { unfold pool_slot. f_equal. rewrite Hact, Hc. nia. }
    rewrite Hslot. eexists. split; [reflexivity |].
    split; [| split; reflexivity].
    unfold slots_filled, pool_wf.
    cbn [vpage_to_ppage_map page_table next_pte_page active_pte_page next_ppage last_ppage].
    split; [split; [exact Hpn | split; [exact Hpl | exact Hnl]] |].
    split; [apply (incr_cursor_is_cursor cfg Hlg _ Hcur) |].
    split; [exact Ha |].
    rewrite (incr_cursor cfg Hlg _ Hcur). cbn [value].
    split; [rewrite Hk1, Hc; reflexivity |].
    destruct (cursor_next cfg (k mod cap) Hmb) as [[Hs Hs'] | [Hs Hs']].
    + split.
      * rewrite Hnv. rewrite <- Z.add_assoc. f_equal.
        apply (Z.div_unique_pos _ _ (k / cap + 1) (k mod cap)); lia.
      * intros _. rewrite Hact. f_equal.
        apply (Z.div_unique_pos _ _ (k / cap) (k mod cap + 1)); lia.
    + split.
      * rewrite Hnv. rewrite <- Z.add_assoc. f_equal.
        apply (Z.div_unique_pos _ _ (k / cap + 1) (cap - 1)); lia.
      * intros Hne. exfalso. apply Hne. rewrite Hk1. exact Hs.
Qed.

Lemma get_pte_pa_seq_fresh reqs : forall base k vm,
  0 <= base -> 0 <= k ->
  slots_filled cfg base k vm ->
  NoDup (pte_request_keys cfg reqs) ->
  (forall key, key ∈ pte_request_keys cfg reqs -> page_table vm !! key = None) ->
  base + (k + Z.of_nat (length reqs) + cap - 1) / cap <= value (last_ppage vm) ->
  exists res vm',
    get_pte_pa_seq cfg vm reqs = Some (res, vm') /\
    slots_filled cfg base (k + Z.of_nat (length reqs)) vm' /\
    last_ppage vm' = last_ppage vm /\
    forall (i : nat) cpu_num vaddr level,
      reqs !! i = Some (cpu_num, vaddr, level) ->
      res !! i = Some (pte_paddr cfg (pool_slot cfg base (k + Z.of_nat i)) vaddr level,
                       minor_fault_penalty cfg) /\
      page_table vm' !! pte_key cfg cpu_num vaddr level
      = Some (pool_slot cfg base (k + Z.of_nat i)).
Proof.
  pose proof (cap_pos cfg Hlg) as Hcap.
  induction reqs as [| [[c v] l] rest IH]; intros base k vm Hb Hk Hf Hnd Habs Hroom.
  - exists [], vm. cbn [get_pte_pa_seq length].
    rewrite Z.add_0_r. split; [reflexivity |]. split; [exact Hf |].
    split; [reflexivity |]. intros i ? ? ? Hi. rewrite lookup_nil in Hi. discriminate.
  - cbn [pte_request_keys map fst snd] in Hnd, Habs.
    fold (pte_request_keys cfg rest) in Hnd, Habs.
    apply NoDup_cons in Hnd as [Hnotin Hnd].
    assert (Hlen : Z.of_nat (length ((c, v, l) :: rest)) = 1 + Z.of_nat (length rest))
      by (cbn [length]; lia).
    rewrite Hlen in *.
    assert (Hroom1 : base + (k + 1 + cap - 1) / cap <= value (last_ppage vm)).
    { etransitivity; [| exact Hroom]. apply Z.add_le_mono_l.
      apply Z.div_le_mono; lia. }
    destruct (slots_filled_step base k vm c v l Hb Hk Hf
                (Habs _ ltac:(left)) Hroom1) as (vm1 & Hg & Hf1 & Hl1 & Hpt1).
    destruct (IH base (k + 1) vm1 Hb ltac:(lia) Hf1 Hnd) as (res & vm2 & Hs & Hf2 & Hl2 & Hres).
    { intros key Hin. rewrite Hpt1, lookup_insert_ne.
      - apply Habs. right. exact Hin.
      - intros <-. exact (Hnotin Hin). }
    { rewrite Hl1. replace (k + 1 + Z.of_nat (length rest))
        with (k + (1 + Z.of_nat (length rest))) by lia. exact Hroom. }
    exists ((pte_paddr cfg (pool_slot cfg base k) v l, minor_fault_penalty cfg) :: res), vm2.
    cbn [get_pte_pa_seq]. rewrite Hg, Hs.
    split; [reflexivity |].
    split; [replace (k + (1 + Z.of_nat (length rest)))
              with (k + 1 + Z.of_nat (length rest)) by lia; exact Hf2 |].
    split; [congruence |].
    intros [| i] c' v' l' Hi.
    + cbn in Hi. injection Hi as <- <- <-. rewrite Z.add_0_r. split; [reflexivity |].
      (* the first entry is still there after the rest was added *)
      clear IH Hres.
      assert (Hkeep : forall rest' vmA resB vmB key s,
                 get_pte_pa_seq cfg vmA rest' = Some (resB, vmB) ->
                 page_table vmA !! key = Some s -> page_table vmB !! key = Some s).
      { induction rest' as [| [[c2 v2] l2] rest' IH']; intros vmA resB vmB key s Hrun Hlk.
        - cbn in Hrun. injection Hrun as <- <-. exact Hlk.
        - cbn [get_pte_pa_seq] in Hrun.
          destruct (get_pte_pa cfg vmA c2 v2 l2) as [[[pa pen] vmC] |] eqn:Hg2; [| discriminate].
          destruct (get_pte_pa_seq cfg vmC rest') as [[resD vmD] |] eqn:Hs2; [| discriminate].
          injection Hrun as <- <-.
          apply (IH' _ _ _ _ _ Hs2).
          apply (proj2 (get_pte_pa_frame _ _ _ _ _ _ _ _ Hg2)). exact Hlk. }
      apply (Hkeep _ _ _ _ _ _ Hs). rewrite Hpt1. apply lookup_insert_eq.
    + cbn [lookup] in Hi. change (((c, v, l) :: rest) !! S i) with (rest !! i) in Hi.
      destruct (Hres i c' v' l' Hi) as [Hr Hp].
      replace (k + Z.of_nat (S i)) with (k + 1 + Z.of_nat i) by lia.
      split; [exact Hr | exact Hp].
Qed.

End Fresh.

(** ** The reachable states *)

Lemma page_number_zero cfg : value (page_number cfg (address 0)) = 0.
Proof.
  unfold page_number, convert, in_place, address, slice_of_value. cbn [value lower].
  rewrite Z.land_0_l, Z.shiftl_0_l, Z.shiftr_0_l, Z.land_0_l. reflexivity.
Qed.

(** A configuration that passes construction has pages of 1 to 2^63
    bytes and a PTE-page size that is a power of two above 1 KiB. *)
Lemma construct_page_bits cfg vm :
  construct cfg = Some vm ->
  0 <= LOG2_PAGE_SIZE cfg < 64 /\ 11 <= lg2_pte cfg /\
  pte_page_size cfg = 2 ^ lg2_pte cfg.
Proof.
  intros E. apply construct_Some in E as (-> & Hgt & Hpow & Hlt).
  pose proof (initial_next_nonneg cfg) as Hnn.
  assert (Hp : pte_page_size cfg = 2 ^ lg2_pte cfg).
  { unfold is_power_of_2 in Hpow. apply andb_true_iff in Hpow as [_ Hp].
    apply Z.eqb_eq in Hp. exact Hp. }
  assert (Hk : 0 <= lg2_pte cfg) by apply Z.log2_nonneg.
  split; [| split; [| exact Hp]].
  - destruct (Z.lt_ge_cases (LOG2_PAGE_SIZE cfg) 0) as [Hneg | Hpos].
    { exfalso. revert Hlt. unfold initial_vmem at 2. cbn [last_ppage].
      unfold lowest_address_for_size, pages_to_bytes.
      rewrite (Z.pow_neg_r 2 (LOG2_PAGE_SIZE cfg)) by lia. rewrite Z.mul_0_r.
      change (wrap64 0) with 0. rewrite page_number_zero. lia. }
    destruct (Z.lt_ge_cases (LOG2_PAGE_SIZE cfg) 64) as [? | Hbig]; [lia |].
    exfalso. revert Hlt. unfold initial_vmem at 2. cbn [last_ppage].
    unfold lowest_address_for_size, page_number, convert, slice_of_value. cbn [value].
    unfold bitmask, address_bits. rewrite Z.max_l by lia. rewrite Z.land_0_r. lia.
  - destruct (Z.le_gt_cases 11 (lg2_pte cfg)) as [? | Hs]; [assumption | exfalso].
    assert (2 ^ lg2_pte cfg <= 2 ^ 10) by (apply Z.pow_le_mono_r; lia). lia.
Qed.

Lemma vm_inv_construct cfg vm :
  lg2_pte cfg <= LOG2_PAGE_SIZE cfg ->
  construct cfg = Some vm ->
  vm_inv cfg (value (next_ppage (initial_vmem cfg))) vm.
Proof.
  intros Hfit E. destruct (construct_page_bits cfg vm E) as (HL & Hk & _).
  pose proof E as E'. apply construct_Some in E' as (-> & _ & _ & Hlt).
  assert (Hbase : 1 <= value (next_ppage (initial_vmem cfg))).
  { rewrite initial_next_value by lia. rewrite max_pow2 by lia.
    apply Z.div_le_lower_bound; [apply Z.pow_pos_nonneg; lia |].
    rewrite Z.mul_1_r. apply Z.pow_le_mono_r; lia. }
  constructor.
  - split; [apply is_page_number_page_number; lia |].
    split; [apply is_page_number_page_number; lia | lia].
  - lia.
  - unfold is_pte_cursor. cbn. rewrite Z.land_0_l.
    split; [reflexivity |]. split; [reflexivity |].
    assert (Hlg : 0 <= lg2_pte cfg <= LOG2_PAGE_SIZE cfg) by lia.
    pose proof (cap_pos cfg Hlg). lia.
  - split; [apply is_page_number_page_number; lia |].
    unfold initial_vmem; cbn [active_pte_page next_ppage next_pte_page].
    rewrite page_number_zero. fold (initial_vmem cfg).
    split; [unfold initial_vmem in Hbase; cbn [next_ppage] in Hbase; lia |].
    cbn. rewrite Z.land_0_l. intros; contradiction.
  - intros k p. cbn. rewrite lookup_empty. discriminate.
  - intros k1 k2 p1 p2. cbn. rewrite lookup_empty. discriminate.
  - intros k s. cbn. rewrite lookup_empty. discriminate.
  - intros k1 k2 p1 p2. cbn. rewrite lookup_empty. discriminate.
  - intros k p k' s. cbn. rewrite lookup_empty. discriminate.
Qed.

Lemma reachable_inv cfg vm :
  lg2_pte cfg <= LOG2_PAGE_SIZE cfg ->
  reachable cfg vm ->
  vm_inv cfg (value (next_ppage (initial_vmem cfg))) vm.
Proof.
  intros Hfit Hr. induction Hr as [vm E | vm vm' Hr IH Hstep].
  - apply vm_inv_construct; assumption.
  - assert (Hex : exists vm0, construct cfg = Some vm0).
    { clear IH Hstep. induction Hr; eauto. }
    destruct Hex as [vm0 E0].
    destruct (construct_page_bits cfg vm0 E0) as (HL & Hk & _).
    assert (HL64 : LOG2_PAGE_SIZE cfg <= 64) by lia.
    assert (Hlg : 0 <= lg2_pte cfg <= LOG2_PAGE_SIZE cfg) by lia.
    apply (vm_inv_step cfg HL64 Hlg _ vm vm' IH Hstep).
Qed.


Lemma reachable_constructed cfg vm :
  reachable cfg vm -> exists vm0, construct cfg = Some vm0.
Proof.
  induction 1 as [vm0 H | vm0 vm1 _ IH _]; [exists vm0; exact H | exact IH].
Qed.

Lemma reachable_steps cfg vm vm' :
  reachable cfg vm -> vm_steps cfg vm vm' -> reachable cfg vm'.
Proof.
  intros Hr Hs. induction Hs as [vm | vm vm1 vm2 Hstep _ IH]; [exact Hr |].
  apply IH. apply (reach_step cfg vm vm1 Hr Hstep).
Qed.

Lemma construct_levels_pos cfg vm :
  construct cfg = Some vm -> 0 <= pt_levels cfg < 2 ^ 32 -> 1 <= pt_levels cfg.
Proof.
  intros E Hn.
  destruct (construct_valid cfg vm E Hn) as (HL & Hk & Hp & Hfit & Hlast & Hnext).
  apply construct_Some in E as (_ & _ & _ & Hlt).
  destruct (Z.eq_dec (pt_levels cfg) 0) as [H0 | H0]; [| lia].
  exfalso. rewrite Hlast, Hnext, H0, Z.pow_0_r in Hlt.
  assert (1 <= Z.max (2 ^ LOG2_PAGE_SIZE cfg) (2 ^ 20) / 2 ^ LOG2_PAGE_SIZE cfg); [| lia].
  assert (0 < 2 ^ LOG2_PAGE_SIZE cfg) by (apply Z.pow_pos_nonneg; lia).
  apply Z.div_le_lower_bound; lia.
Qed.

(** ** The address of a page-table entry *)

Lemma get_offset_range cfg vaddr level :
  0 <= get_offset cfg vaddr level < 2 ^ lg2_pte_count cfg.
Proof.
  assert (Hk : 0 <= lg2_pte_count cfg) by apply Z.log2_nonneg.
  unfold get_offset, to_uint64, slice, convert, slice_of_value. cbn [value].
  unfold bitmask.
  replace (lower (address vaddr) + shamt cfg level + lg2_pte_count cfg
           - (lower (address vaddr) + shamt cfg level)) with (lg2_pte_count cfg) by lia.
  rewrite Z.max_r by lia. rewrite Z.land_ones by lia.
  apply Z.mod_pos_bound. apply Z.pow_pos_nonneg; lia.
Qed.

(** The index, scaled by the entry size, is put below the slot: the
    entry lies inside the slot's PTE page. *)
Lemma pte_paddr_value cfg s vaddr level :
  is_pte_slot cfg s -> 3 <= lg2_pte cfg <= 64 ->
  lg2_pte_count cfg = lg2_pte cfg - 3 ->
  pte_paddr cfg s vaddr level
  = value s * 2 ^ lg2_pte cfg + get_offset cfg vaddr level * 8.
Proof.
  intros (Hu & Hl & Hv) [H3 H64] Hc.
  pose proof (get_offset_range cfg vaddr level) as Ho.
  unfold pte_paddr. generalize dependent (get_offset cfg vaddr level). intros off Ho.
  change (lg2 pte_entry_byte_multiple) with 3.
  unfold convert, splice, in_place, slice_of_value. cbn [upper lower value].
  rewrite Hu, Hl, Hc in *. unfold address_bits in *.
  replace (3 + (lg2_pte cfg - 3)) with (lg2_pte cfg) by lia.
  rewrite (Z.max_l 64 (lg2_pte cfg)), (Z.min_r (lg2_pte cfg) 3) by lia.
  unfold bitmask.
  rewrite !Z.max_r by lia. rewrite Z.shiftr_0_r.
  remember (lg2_pte cfg) as lg eqn:Elg. clear Elg Hl Hu Hc.
  remember (value s) as vs eqn:Evs. clear Evs.
  assert (Hlg0 : 0 <= lg - 3) by lia. assert (Hlg1 : 0 <= 64 - lg) by lia.
  assert (Hvs : vs = Z.land vs (Z.ones (64 - lg)))
    by (rewrite Z.land_ones by lia; symmetry; apply Z.mod_small; lia).
  assert (Hoff : off = Z.land off (Z.ones (lg - 3)))
    by (rewrite Z.land_ones by lia; symmetry; apply Z.mod_small; lia).
  replace 8 with (2 ^ 3) by reflexivity.
  rewrite <- !Z.shiftl_mul_pow2 by lia.
  rewrite <- Z.or_to_plus.
  - rewrite Hvs, Hoff. clear Hvs Hoff Hv Ho. bits_deep.
  - rewrite Hvs, Hoff. clear Hvs Hoff Hv Ho. bits_deep.
Qed.

(** ** Further properties of the pool and the two maps *)

(** X1: [va_to_pa] asks [ppage_front] for a page before it looks the
    key up.  In a state with [0 <= next_ppage <= last_ppage] it therefore
    aborts if and only if the pool has no free page, whether or not the
    address is already mapped. *)
Theorem va_to_pa_aborts_iff (cfg : config) (vm : VirtualMemory) (cpu_num vaddr : Z) :
  pool_invariant vm ->
  (va_to_pa cfg vm cpu_num vaddr = None <-> free_pages vm = 0).
Proof.
  unfold pool_invariant, free_pages. intros [H0 Hle]. split.
  - intros E.
    destruct (Z.le_gt_cases (value (last_ppage vm)) (value (next_ppage vm))) as [? | Hlt];
      [lia |].
    destruct (vpage_to_ppage_map vm !! vkey cfg cpu_num vaddr) as [p|] eqn:Hk.
    + rewrite (va_to_pa_hit cfg _ _ _ _ Hlt Hk) in E. discriminate.
    + rewrite (va_to_pa_miss cfg _ _ _ Hlt Hk) in E. discriminate.
  - intros Hz. apply va_to_pa_abort. lia.
Qed.

(** X1, witness: the constructed two-level memory has free pages, so its first
    translation returns. *)
Lemma va_to_pa_aborts_iff_witness :
  free_pages (initial_vmem cfg_2k) = 65280 /\
  exists pa pen vm', va_to_pa cfg_2k (initial_vmem cfg_2k) 0 0 = Some (pa, pen, vm').
Proof.
  split; [reflexivity |].
  destruct (va_to_pa cfg_2k (initial_vmem cfg_2k) 0 0) as [[[pa pen] vm']|] eqn:E.
  - exists pa, pen, vm'. reflexivity.
  - apply (va_to_pa_aborts_iff cfg_2k (initial_vmem cfg_2k) 0 0) in E.
    + vm_compute in E. discriminate.
    + split; vm_compute; discriminate.
Defined.

(** X2: [get_pte_pa] takes a page only when the cursor [next_pte_page]
    reads zero.  In a state with [0 <= next_ppage <= last_ppage] it aborts
    if and only if the cursor reads zero and the pool has no free page; with
    the cursor inside a PTE page it returns even when the pool is empty. *)
Theorem get_pte_pa_aborts_iff (cfg : config) (vm : VirtualMemory)
    (cpu_num vaddr level : Z) :
  pool_invariant vm ->
  (get_pte_pa cfg vm cpu_num vaddr level = None <->
   cursor_is_zero cfg vm = true /\ free_pages vm = 0).
Proof.
  unfold pool_invariant, free_pages. intros [H0 Hle]. split.
  - intros E. destruct (cursor_is_zero cfg vm) eqn:Hc.
    + split; [reflexivity |].
      destruct (Z.le_gt_cases (value (last_ppage vm)) (value (next_ppage vm))) as [? | Hlt];
        [lia |].
      destruct (get_pte_pa_total cfg vm cpu_num vaddr level Hlt) as (? & ? & ? & E').
      congruence.
    + pose proof (activate_keep cfg vm Hc) as Ha.
      destruct (page_table vm !! pte_key cfg cpu_num vaddr level) as [p|] eqn:Hk.
      * rewrite (get_pte_pa_hit _ _ _ _ _ _ _ Ha Hk) in E. discriminate.
      * rewrite (get_pte_pa_miss _ _ _ _ _ _ Ha Hk) in E. discriminate.
  - intros [Hc Hz]. apply get_pte_pa_abort. apply activate_abort; [exact Hc | lia].
Qed.


(** X2, witness: on the constructed two-level memory the cursor reads zero and
    the pool has free pages, so the first request returns. *)
Lemma get_pte_pa_aborts_iff_witness :
  cursor_is_zero cfg_2k (initial_vmem cfg_2k) = true /\
  exists pa pen vm', get_pte_pa cfg_2k (initial_vmem cfg_2k) 0 0 1 = Some (pa, pen, vm').
Proof.
  split; [reflexivity |].
  destruct (get_pte_pa cfg_2k (initial_vmem cfg_2k) 0 0 1) as [[[pa pen] vm']|] eqn:E.
  - exists pa, pen, vm'. reflexivity.
  - apply (get_pte_pa_aborts_iff cfg_2k (initial_vmem cfg_2k) 0 0 1) in E.
    + destruct E as [_ E]. vm_compute in E. discriminate.
    + split; vm_compute; discriminate.
Defined.

(** X3: over any run of returning operations [last_ppage] never
    changes, [next_ppage] never decreases and stays a page number not above
    [last_ppage], and the number of free pages never increases: no page is
    ever given back to the pool. *)
Theorem pool_only_advances (cfg : config) (vm vm' : VirtualMemory) :
  0 <= LOG2_PAGE_SIZE cfg <= 64 ->
  pool_wf cfg vm -> vm_steps cfg vm vm' ->
  pool_wf cfg vm' /\ last_ppage vm' = last_ppage vm /\
  value (next_ppage vm) <= value (next_ppage vm') /\
  free_pages vm' <= free_pages vm.
Proof.
  intros HL Hwf Hs. induction Hs as [vm | vm vm1 vm2 Hstep _ IH].
  - unfold free_pages. split; [exact Hwf |]. split; [reflexivity |]. split; lia.
  - destruct (pool_wf_step cfg vm vm1 HL Hwf Hstep) as (Hwf1 & Hl1 & Hn1).
    destruct (IH Hwf1) as (Hwf2 & Hl2 & Hn2 & Hf2).
    unfold free_pages in *. rewrite Hl2, Hl1 in *.
    split; [exact Hwf2 |]. split; [reflexivity |]. split; lia.
Qed.

(** X3, witness: a translation followed by a PTE request on the constructed
    two-level memory. *)
Lemma pool_only_advances_witness :
  exists pa pen vm1 pa' pen' vm2,
    va_to_pa cfg_2k (initial_vmem cfg_2k) 0 0 = Some (pa, pen, vm1) /\
    get_pte_pa cfg_2k vm1 0 0 1 = Some (pa', pen', vm2) /\
    last_ppage vm2 = last_ppage (initial_vmem cfg_2k) /\
    free_pages vm2 <= free_pages (initial_vmem cfg_2k).
Proof.
  destruct (va_to_pa cfg_2k (initial_vmem cfg_2k) 0 0) as [[[pa pen] vm1]|] eqn:E1;
    [| vm_compute in E1; discriminate].
  pose proof E1 as E1'. vm_compute in E1'. injection E1' as _ _ Hvm.
  destruct (get_pte_pa cfg_2k vm1 0 0 1) as [[[pa' pen'] vm2]|] eqn:E2;
    [| rewrite <- Hvm in E2; vm_compute in E2; discriminate].
  exists pa, pen, vm1, pa', pen', vm2.
  split; [reflexivity |]. split; [exact E2 |].
  destruct (pool_only_advances cfg_2k (initial_vmem cfg_2k) vm2) as (_ & Hl & _ & Hf).
  - cbn. lia.
  - apply (inv_pool _ _ _ (reachable_inv cfg_2k _ ltac:(vm_compute; discriminate)
                             (reach_construct cfg_2k _ eq_refl))).
  - eapply steps_cons; [eapply step_va_to_pa; exact E1 |].
    eapply steps_cons; [eapply step_get_pte_pa; exact E2 |]. apply steps_refl.
  - split; [exact Hl | exact Hf].
Defined.

(** X4: once [va_to_pa] has returned an address for [(cpu, vaddr)],
    then after any number of further operations the same call either
    returns the same address with penalty 0 and leaves the state as it is, or
    aborts because the pool is empty.  It never returns another address. *)
Theorem va_to_pa_stable (cfg : config) (vm vm1 vm2 : VirtualMemory)
    (cpu_num vaddr pa pen : Z) :
  va_to_pa cfg vm cpu_num vaddr = Some (pa, pen, vm1) ->
  vm_steps cfg vm1 vm2 ->
  va_to_pa cfg vm2 cpu_num vaddr = Some (pa, 0, vm2) \/
  (va_to_pa cfg vm2 cpu_num vaddr = None /\
   value (last_ppage vm2) <= value (next_ppage vm2)).
Proof.
  intros E Hs. destruct (va_to_pa_entry _ _ _ _ _ _ _ E) as (p & Hk & ->).
  destruct (vm_steps_lookup cfg vm1 vm2 Hs) as (Hv & _).
  apply Hv in Hk.
  destruct (Z.le_gt_cases (value (last_ppage vm2)) (value (next_ppage vm2))) as [Hle | Hlt].
  - right. split; [apply va_to_pa_abort |]; exact Hle.
  - left. apply (va_to_pa_hit cfg _ _ _ _ Hlt Hk).
Qed.

(** X4, witness: a translation, a PTE request, and the translation again on
    the constructed two-level memory. *)
Lemma va_to_pa_stable_witness :
  exists pa pen vm1 pa' pen' vm2,
    va_to_pa cfg_2k (initial_vmem cfg_2k) 0 0 = Some (pa, pen, vm1) /\
    get_pte_pa cfg_2k vm1 0 0 1 = Some (pa', pen', vm2) /\
    va_to_pa cfg_2k vm2 0 0 = Some (pa, 0, vm2).
Proof.
  destruct (va_to_pa cfg_2k (initial_vmem cfg_2k) 0 0) as [[[pa pen] vm1]|] eqn:E1;
    [| vm_compute in E1; discriminate].
  pose proof E1 as E1'. vm_compute in E1'. injection E1' as _ _ Hvm1.
  destruct (get_pte_pa cfg_2k vm1 0 0 1) as [[[pa' pen'] vm2]|] eqn:E2;
    [| rewrite <- Hvm1 in E2; vm_compute in E2; discriminate].
  pose proof E2 as E2'. rewrite <- Hvm1 in E2'. vm_compute in E2'. injection E2' as _ _ Hvm2.
  exists pa, pen, vm1, pa', pen', vm2.
  split; [reflexivity |]. split; [exact E2 |].
  destruct (va_to_pa_stable cfg_2k (initial_vmem cfg_2k) vm1 vm2 0 0 pa pen E1)
    as [H | [_ H]].
  - eapply steps_cons; [eapply step_get_pte_pa; exact E2 | apply steps_refl].
  - exact H.
  - rewrite <- Hvm2 in H. vm_compute in H. exfalso. apply H. reflexivity.
Defined.

(** X5: once [get_pte_pa] has returned an address for
    [(cpu, vaddr, level)], then after any number of further operations the
    same call either returns the same address with penalty 0 and leaves the
    PTE-location map as it is, or aborts because the cursor reads zero and
    the pool is empty.  It never returns another address. *)
Theorem get_pte_pa_stable (cfg : config) (vm vm1 vm2 : VirtualMemory)
    (cpu_num vaddr level pa pen : Z) :
  get_pte_pa cfg vm cpu_num vaddr level = Some (pa, pen, vm1) ->
  vm_steps cfg vm1 vm2 ->
  (exists vm3, get_pte_pa cfg vm2 cpu_num vaddr level = Some (pa, 0, vm3) /\
               page_table vm3 = page_table vm2) \/
  (get_pte_pa cfg vm2 cpu_num vaddr level = None /\
   cursor_is_zero cfg vm2 = true /\
   value (last_ppage vm2) <= value (next_ppage vm2)).
Proof.
  intros E Hs.
  destruct (get_pte_pa_entry _ _ _ _ _ _ _ _ E) as (p & Hk & ->).
  destruct (vm_steps_lookup cfg vm1 vm2 Hs) as (_ & Hp).
  apply Hp in Hk.
  destruct (activate_pte_page cfg vm2) as [vm0|] eqn:Ha.
  - left. exists vm0. destruct (activate_page_table _ _ _ Ha) as (Hpt & _).
    split; [apply (get_pte_pa_hit _ _ _ _ _ _ _ Ha Hk) | exact Hpt].
  - right. split; [apply get_pte_pa_abort; exact Ha |].
    destruct (cursor_is_zero cfg vm2) eqn:Hc.
    + split; [reflexivity |].
      destruct (Z.le_gt_cases (value (last_ppage vm2)) (value (next_ppage vm2)))
        as [Hle | Hlt]; [exact Hle |].
      rewrite (activate_fresh cfg vm2 Hc Hlt) in Ha. discriminate.
    + rewrite (activate_keep cfg vm2 Hc) in Ha. discriminate.
Qed.

(** X5, witness: a PTE request, a translation, and the PTE request again on
    the constructed two-level memory. *)
Lemma get_pte_pa_stable_witness :
  exists pa pen vm1 pa1 pen1 vm2 vm3,
    get_pte_pa cfg_2k (initial_vmem cfg_2k) 0 0 1 = Some (pa, pen, vm1) /\
    va_to_pa cfg_2k vm1 0 0 = Some (pa1, pen1, vm2) /\
    get_pte_pa cfg_2k vm2 0 0 1 = Some (pa, 0, vm3) /\
    page_table vm3 = page_table vm2.
Proof.
  destruct (get_pte_pa cfg_2k (initial_vmem cfg_2k) 0 0 1) as [[[pa pen] vm1]|] eqn:E1;
    [| vm_compute in E1; discriminate].
  pose proof E1 as E1'. vm_compute in E1'. injection E1' as _ _ Hvm1.
  destruct (va_to_pa cfg_2k vm1 0 0) as [[[pa1 pen1] vm2]|] eqn:E2;
    [| rewrite <- Hvm1 in E2; vm_compute in E2; discriminate].
  pose proof E2 as E2'. rewrite <- Hvm1 in E2'. vm_compute in E2'. injection E2' as _ _ Hvm2.
  destruct (get_pte_pa_stable cfg_2k (initial_vmem cfg_2k) vm1 vm2 0 0 1 pa pen E1
              (steps_cons cfg_2k _ _ _ (step_va_to_pa cfg_2k _ _ _ _ _ _ E2)
                          (steps_refl cfg_2k _)))
    as [(vm3 & H3 & Hpt) | (_ & Hc & _)].
  - exists pa, pen, vm1, pa1, pen1, vm2, vm3.
    split; [reflexivity |]. split; [exact E2 |]. split; [exact H3 | exact Hpt].
  - rewrite <- Hvm2 in Hc. vm_compute in Hc. discriminate.
Defined.

(** X6: in every state reachable from a successful construction (with
    a PTE page no larger than a page): every page of the VPN map was handed
    out by the pool and distinct keys have distinct pages; every slot of the
    PTE-location map lies in a page handed out by the pool and distinct keys
    have distinct slots; and no PTE slot lies in a page that the VPN map
    uses for data. *)
Theorem reachable_pages_distinct (cfg : config) (vm : VirtualMemory) :
  lg2_pte cfg <= LOG2_PAGE_SIZE cfg ->
  reachable cfg vm ->
  (forall k p, vpage_to_ppage_map vm !! k = Some p ->
     value (next_ppage (initial_vmem cfg)) <= value p < value (next_ppage vm)) /\
  (forall k1 k2 p1 p2,
     vpage_to_ppage_map vm !! k1 = Some p1 -> vpage_to_ppage_map vm !! k2 = Some p2 ->
     k1 <> k2 -> value p1 <> value p2) /\
  (forall k s, page_table vm !! k = Some s ->
     value (next_ppage (initial_vmem cfg)) <= slot_page cfg s < value (next_ppage vm)) /\
  (forall k1 k2 s1 s2,
     page_table vm !! k1 = Some s1 -> page_table vm !! k2 = Some s2 ->
     k1 <> k2 -> value s1 <> value s2) /\
  (forall k p k' s,
     vpage_to_ppage_map vm !! k = Some p -> page_table vm !! k' = Some s ->
     slot_page cfg s <> value p).
Proof.
  intros Hfit Hr.
  destruct (reachable_inv cfg vm Hfit Hr) as [_ _ _ _ Hdata Hdinj Hslot Hsinj Hdis].
  split; [intros k p Hk; apply (Hdata k p Hk) |].
  split; [intros k1 k2 p1 p2 H1 H2 Hne Heq; apply Hne, (Hdinj k1 k2 p1 p2 H1 H2 Heq) |].
  split; [intros k s Hk; apply (Hslot k s Hk) |].
  split; [intros k1 k2 s1 s2 H1 H2 Hne Heq; apply Hne, (Hsinj k1 k2 s1 s2 H1 H2 Heq) |].
  exact Hdis.
Qed.

(** X6, witness: the state after the first translation on the constructed
    two-level memory. *)
Lemma reachable_pages_distinct_witness :
  exists pa pen vm1,
    va_to_pa cfg_2k (initial_vmem cfg_2k) 0 0 = Some (pa, pen, vm1) /\
    forall k p, vpage_to_ppage_map vm1 !! k = Some p ->
                256 <= value p < value (next_ppage vm1).
Proof.
  destruct (va_to_pa cfg_2k (initial_vmem cfg_2k) 0 0) as [[[pa pen] vm1]|] eqn:E1;
    [| vm_compute in E1; discriminate].
  exists pa, pen, vm1. split; [reflexivity |].
  apply (reachable_pages_distinct cfg_2k vm1).
  - vm_compute. discriminate.
  - eapply reach_step; [apply reach_construct; reflexivity |].
    eapply step_va_to_pa. exact E1.
Defined.

(** X7: two translations, the second made after the first and any
    number of operations in between, land in the same physical page if and
    only if they have the same requester and virtual page. *)
Theorem translations_stay_apart (cfg : config) (vm vm1 vm2 vm3 : VirtualMemory)
    (c1 v1 pa1 pen1 c2 v2 pa2 pen2 : Z) :
  lg2_pte cfg <= LOG2_PAGE_SIZE cfg ->
  reachable cfg vm ->
  va_to_pa cfg vm c1 v1 = Some (pa1, pen1, vm1) ->
  vm_steps cfg vm1 vm2 ->
  va_to_pa cfg vm2 c2 v2 = Some (pa2, pen2, vm3) ->
  (vkey cfg c1 v1 = vkey cfg c2 v2 <->
   pa1 / 2 ^ LOG2_PAGE_SIZE cfg = pa2 / 2 ^ LOG2_PAGE_SIZE cfg).
Proof.
  intros Hfit Hr E1 Hs E2.
  assert (Hr3 : reachable cfg vm3).
  { eapply reach_step; [| eapply step_va_to_pa; exact E2].
    eapply reachable_steps; [| exact Hs].
    eapply reach_step; [exact Hr | eapply step_va_to_pa; exact E1]. }
  destruct (reachable_constructed cfg vm Hr) as [vm0 E0]. destruct (construct_page_bits cfg vm0 E0) as (HL & _).
  assert (HL' : 0 <= LOG2_PAGE_SIZE cfg <= 64) by lia.
  destruct (va_to_pa_entry _ _ _ _ _ _ _ E1) as (p1 & Hk1 & ->).
  destruct (va_to_pa_entry _ _ _ _ _ _ _ E2) as (p2 & Hk2 & ->).
  assert (Hk1' : vpage_to_ppage_map vm3 !! vkey cfg c1 v1 = Some p1).
  { destruct (va_to_pa_frame _ _ _ _ _ _ _ E2) as (_ & _ & _ & Hv3). apply Hv3.
    destruct (vm_steps_lookup cfg vm1 vm2 Hs) as (Hv & _). apply Hv. exact Hk1. }
  destruct (reachable_inv cfg vm3 Hfit Hr3) as [_ _ _ _ Hdata Hdinj _ _ _].
  destruct (Hdata _ _ Hk1') as (Hp1 & _). destruct (Hdata _ _ Hk2) as (Hp2 & _).
  assert (H2 : 0 < 2 ^ LOG2_PAGE_SIZE cfg) by (apply Z.pow_pos_nonneg; lia).
  rewrite (va_paddr_value cfg HL' p1 v1 Hp1), (va_paddr_value cfg HL' p2 v2 Hp2).
  rewrite !page_of_paddr by (try apply Z.mod_pos_bound; lia).
  split.
  - intros Heq. rewrite Heq in Hk1'. congruence.
  - apply (Hdinj _ _ _ _ Hk1' Hk2).
Qed.


(** X7, witness: two virtual pages of requester 0 on the constructed
    two-level memory get different physical pages. *)
Lemma translations_stay_apart_witness :
  exists pa1 pen1 vm1 pa2 pen2 vm3,
    va_to_pa cfg_2k (initial_vmem cfg_2k) 0 0 = Some (pa1, pen1, vm1) /\
    va_to_pa cfg_2k vm1 0 4096 = Some (pa2, pen2, vm3) /\
    pa1 / 2 ^ 12 <> pa2 / 2 ^ 12.
Proof.
  destruct (va_to_pa cfg_2k (initial_vmem cfg_2k) 0 0) as [[[pa1 pen1] vm1]|] eqn:E1;
    [| vm_compute in E1; discriminate].
  pose proof E1 as E1'. vm_compute in E1'. injection E1' as _ _ Hvm1.
  destruct (va_to_pa cfg_2k vm1 0 4096) as [[[pa2 pen2] vm3]|] eqn:E2;
    [| rewrite <- Hvm1 in E2; vm_compute in E2; discriminate].
  exists pa1, pen1, vm1, pa2, pen2, vm3.
  split; [reflexivity |]. split; [exact E2 |].
  intros Heq.
  apply (translations_stay_apart cfg_2k (initial_vmem cfg_2k) vm1 vm1 vm3
           0 0 pa1 pen1 0 4096 pa2 pen2) in Heq.
  - vm_compute in Heq. discriminate.
  - vm_compute. discriminate.
  - apply reach_construct. reflexivity.
  - exact E1.
  - apply steps_refl.
  - exact E2.
Defined.

(** X8: in a reachable state whose cursor reads zero, [n] requests
    with pairwise distinct keys, none of them in the PTE-location map, all
    return when the pool has ceil(n / c) free pages, [c] being the number of
    PTE pages per page.  Each pays the penalty, the [i]-th gets slot
    [next_ppage * c + i], and [next_ppage] advances by exactly ceil(n / c). *)
Theorem get_pte_pa_seq_fills_slots (cfg : config) (vm : VirtualMemory)
    (reqs : list (Z * Z * Z)) :
  lg2_pte cfg <= LOG2_PAGE_SIZE cfg ->
  reachable cfg vm ->
  cursor_is_zero cfg vm = true ->
  NoDup (pte_request_keys cfg reqs) ->
  (forall key, key ∈ pte_request_keys cfg reqs -> page_table vm !! key = None) ->
  (Z.of_nat (length reqs) + pte_pages_per_page cfg - 1) / pte_pages_per_page cfg
    <= free_pages vm ->
  exists res vm',
    get_pte_pa_seq cfg vm reqs = Some (res, vm') /\
    value (next_ppage vm')
    = value (next_ppage vm)
      + (Z.of_nat (length reqs) + pte_pages_per_page cfg - 1) / pte_pages_per_page cfg /\
    forall (i : nat) cpu_num vaddr level,
      reqs !! i = Some (cpu_num, vaddr, level) ->
      res !! i = Some (pte_paddr cfg (pool_slot cfg (value (next_ppage vm)) (Z.of_nat i))
                         vaddr level,
                       minor_fault_penalty cfg) /\
      page_table vm' !! pte_key cfg cpu_num vaddr level
      = Some (pool_slot cfg (value (next_ppage vm)) (Z.of_nat i)).
Proof.
  intros Hlg Hr Hz Hnd Habs Hroom.
  pose proof (reachable_inv cfg vm Hlg Hr) as Hinv.
  destruct (reachable_constructed cfg vm Hr) as [vm0 Hc].
  destruct (construct_page_bits cfg vm0 Hc) as (HL & Hlg0 & _).
  assert (HL' : LOG2_PAGE_SIZE cfg <= 64) by lia.
  assert (Hlg' : 0 <= lg2_pte cfg <= LOG2_PAGE_SIZE cfg) by lia.
  pose proof (cap_pos cfg Hlg') as Hcap.
  destruct Hinv as [Hpool Hbase Hcur Hact _ _ _ _ _].
  assert (Hcv : value (next_pte_page vm) = 0).
  { pose proof (cursor_is_zero_value cfg HL' Hlg' vm Hcur) as E. rewrite Hz in E.
    symmetry in E. apply Z.eqb_eq in E. exact E. }
  assert (Hf : slots_filled cfg (value (next_ppage vm)) 0 vm).
  { unfold slots_filled. rewrite Z.mod_0_l by lia.
    split; [exact Hpool |]. split; [exact Hcur |]. split; [exact (proj1 Hact) |].
    split; [exact Hcv |]. split; [| intros H; exfalso; apply H; reflexivity].
    rewrite (Z.div_small (0 + pte_pages_per_page cfg - 1)) by lia. lia. }
  destruct (get_pte_pa_seq_fresh cfg HL' Hlg' reqs (value (next_ppage vm)) 0 vm
              ltac:(lia) ltac:(lia) Hf Hnd Habs) as (res & vm' & Hs & Hf' & _ & Hres).
  { unfold free_pages in Hroom. rewrite Z.add_0_l. lia. }
  exists res, vm'. split; [exact Hs |].
  split.
  - destruct Hf' as (_ & _ & _ & _ & Hn & _). rewrite Z.add_0_l in Hn. exact Hn.
  - intros i c v l Hi. destruct (Hres i c v l Hi) as [H1 H2].
    rewrite Z.add_0_l in H1, H2. split; assumption.
Qed.


(** X8, witness: three new entries on the constructed two-level memory (two
    PTE pages per page) take two pages. *)
Lemma get_pte_pa_seq_fills_slots_witness :
  exists res vm',
    get_pte_pa_seq cfg_2k (initial_vmem cfg_2k) [(0, 0, 1); (0, 4096, 1); (0, 8192, 1)]
    = Some (res, vm') /\
    value (next_ppage vm') = 256 + 2 /\
    page_table vm' !! pte_key cfg_2k 0 8192 1 = Some (pool_slot cfg_2k 256 2) /\
    res !! 1%nat = Some (1050632, 200) /\
    res !! 2%nat = Some (1052688, 200).
Proof.
  destruct (get_pte_pa_seq_fills_slots cfg_2k (initial_vmem cfg_2k)
              [(0, 0, 1); (0, 4096, 1); (0, 8192, 1)])
    as (res & vm' & Hrun & Hnext & Hres).
  - vm_compute. discriminate.
  - apply reach_construct. reflexivity.
  - reflexivity.
  - apply (bool_decide_unpack _). vm_compute. exact I.
  - intros key _. apply lookup_empty.
  - vm_compute. discriminate.
  - exists res, vm'. split; [exact Hrun |]. split; [exact Hnext |].
    split; [exact (proj2 (Hres 2%nat 0 8192 1 eq_refl)) |].
    split.
    + rewrite (proj1 (Hres 1%nat 0 4096 1 eq_refl)). vm_compute. reflexivity.
    + rewrite (proj1 (Hres 2%nat 0 8192 1 eq_refl)). vm_compute. reflexivity.
Defined.

(** X9: in a reachable state the address returned by [get_pte_pa] is
    [s * pte_page_size + 8 * index], where [s] is the slot stored for the
    key and [index], the level's index field, is below the number of
    entries of a PTE page: the entry lies inside the PTE page of its slot,
    hence inside the pool page of the slot, and the address fits in 64
    bits. *)
Theorem pte_address_layout (cfg : config) (vm vm' : VirtualMemory)
    (cpu_num vaddr level pa pen : Z) :
  lg2_pte cfg <= LOG2_PAGE_SIZE cfg ->
  reachable cfg vm ->
  get_pte_pa cfg vm cpu_num vaddr level = Some (pa, pen, vm') ->
  exists s,
    page_table vm' !! pte_key cfg cpu_num vaddr level = Some s /\
    pa = value s * pte_page_size cfg + 8 * get_offset cfg vaddr level /\
    0 <= get_offset cfg vaddr level < pte_count cfg /\
    pa / pte_page_size cfg = value s /\
    pa / 2 ^ LOG2_PAGE_SIZE cfg = slot_page cfg s /\
    0 <= pa < 2 ^ 64.
Proof.
  intros Hlg Hr E.
  destruct (reachable_constructed cfg vm Hr) as [vm0 Hc].
  destruct (construct_page_bits cfg vm0 Hc) as (HL & Hk & Hp).
  destruct (construct_sizes cfg vm0 Hc) as (_ & _ & Hk3 & Hcnt & Hb).
  pose proof (reachable_inv cfg vm' Hlg
                (reach_step cfg vm vm' Hr (step_get_pte_pa cfg vm _ _ _ _ _ _ E))) as Hinv.
  destruct (get_pte_pa_entry cfg vm cpu_num vaddr level pa pen vm' E) as (s & Hs & Hpa).
  destruct (inv_slot _ _ _ Hinv _ _ Hs) as (Hslot & _).
  exists s. split; [exact Hs |].
  pose proof (get_offset_range cfg vaddr level) as Ho. rewrite <- Hcnt in Ho.
  rewrite (pte_paddr_value cfg s vaddr level Hslot ltac:(lia) Hk3) in Hpa.
  rewrite <- Hp in Hpa.
  remember (get_offset cfg vaddr level) as off eqn:Eoff. clear Eoff.
  destruct Hslot as (_ & _ & Hv).
  assert (Hbpos : 0 < pte_page_size cfg) by lia.
  assert (Hdiv : pa / pte_page_size cfg = value s).
  { symmetry. apply (Z.div_unique_pos _ _ _ (8 * off)); lia. }
  split; [rewrite Hpa; lia |]. split; [exact Ho |]. split; [exact Hdiv |].
  split.
  - unfold slot_page, pte_pages_per_page. rewrite <- Hdiv.
    rewrite Z.div_div by (try apply Z.pow_pos_nonneg; lia).
    rewrite Hp. rewrite <- Z.pow_add_r by lia.
    f_equal. f_equal. lia.
  - assert (Hsplit : 2 ^ 64 = 2 ^ (address_bits - lg2_pte cfg) * pte_page_size cfg).
    { rewrite Hp. rewrite <- Z.pow_add_r by (unfold address_bits; lia).
      f_equal. unfold address_bits. lia. }
    rewrite Hsplit, Hpa. nia.
Qed.

(** X9, witness: the first level-1 request on the constructed four-level
    memory. *)
Lemma pte_address_layout_witness :
  exists pa pen vm' s,
    get_pte_pa cfg_4k (initial_vmem cfg_4k) 0 3735928559 1 = Some (pa, pen, vm') /\
    page_table vm' !! pte_key cfg_4k 0 3735928559 1 = Some s /\
    pa = value s * 4096 + 8 * get_offset cfg_4k 3735928559 1 /\
    pa / 4096 = value s.
Proof.
  destruct (get_pte_pa cfg_4k (initial_vmem cfg_4k) 0 3735928559 1)
    as [[[pa pen] vm']|] eqn:E; [| vm_compute in E; discriminate].
  destruct (pte_address_layout cfg_4k (initial_vmem cfg_4k) vm' 0 3735928559 1 pa pen)
    as (s & Hs & Hpa & _ & Hdiv & _).
  - vm_compute. discriminate.
  - apply reach_construct. reflexivity.
  - exact E.
  - exists pa, pen, vm', s. split; [reflexivity |]. split; [exact Hs |].
    split; [exact Hpa | exact Hdiv].
Defined.

(** X10: for a configuration that passes the constructor's assertions
    (with [pt_levels < 2^32]) [required_bits] is
    [LOG2_PAGE_SIZE + lg2(pte_page_size.count()) * pt_levels], the count
    being the number of entries of a PTE page; the first warning is never
    printed, and the second is printed exactly when the DRAM size is below
    [2^LOG2_PAGE_SIZE] times that count to the power [pt_levels], in
    bytes. *)
Theorem construct_warnings (cfg : config) (vm : VirtualMemory) (dram_size : Z) :
  construct cfg = Some vm -> 0 <= pt_levels cfg < 2 ^ 32 -> 0 < dram_size ->
  required_bits cfg vm = LOG2_PAGE_SIZE cfg + lg2_pte_count cfg * pt_levels cfg /\
  warns_address_bits cfg vm = false /\
  (warns_dram_size cfg vm dram_size = true <->
   dram_size < 2 ^ LOG2_PAGE_SIZE cfg * pte_count cfg ^ pt_levels cfg).
Proof.
  intros E Hn Hd.
  destruct (construct_valid cfg vm E Hn) as (HL & Hk & Hp & Hfit & Hlast & _).
  assert (Hreq : required_bits cfg vm
                 = LOG2_PAGE_SIZE cfg + lg2_pte_count cfg * pt_levels cfg).
  { unfold required_bits, to_uint64, lg2. rewrite Hlast, Hp.
    rewrite <- Z.pow_mul_r by lia. rewrite Z.log2_pow2 by nia. reflexivity. }
  split; [exact Hreq |].
  split.
  - unfold warns_address_bits. rewrite Hreq. apply Z.ltb_ge. unfold address_bits. lia.
  - unfold warns_dram_size, lg2. rewrite Hreq, Z.ltb_lt.
    replace (pte_count cfg ^ pt_levels cfg)
      with (2 ^ (lg2_pte_count cfg * pt_levels cfg))
      by (rewrite Z.pow_mul_r by lia; rewrite <- Hp; reflexivity).
    rewrite <- Z.pow_add_r by nia.
    symmetry. apply Z.log2_lt_pow2. exact Hd.
Qed.

(** X10, witness: the four-level configuration with 512 entries in a PTE
    page needs 12 + 4 * 9 = 48 bits; a 1 GiB DRAM is warned about. *)
Lemma construct_warnings_witness :
  required_bits cfg_4k (initial_vmem cfg_4k) = 48 /\
  warns_address_bits cfg_4k (initial_vmem cfg_4k) = false /\
  warns_dram_size cfg_4k (initial_vmem cfg_4k) (2 ^ 30) = true.
Proof.
  destruct (construct_warnings cfg_4k (initial_vmem cfg_4k) (2 ^ 30))
    as (Hreq & Haddr & Hdram).
  - reflexivity.
  - cbn. lia.
  - lia.
  - split; [exact Hreq |]. split; [exact Haddr |].
    apply Hdram. vm_compute. reflexivity.
Defined.

(** X11: for a configuration that passes construction (with
    [pt_levels < 2^32]) and a level from 1 to [pt_levels], the address part
    of the PTE-location key is that of the level above times the number
    of entries of a PTE page plus this level's index field [get_offset],
    which is below that number. *)
Theorem pte_key_structure (cfg : config) (vm : VirtualMemory) (cpu_num vaddr level : Z) :
  construct cfg = Some vm -> 0 <= pt_levels cfg < 2 ^ 32 ->
  1 <= level <= pt_levels cfg ->
  exists hi,
    pte_key cfg cpu_num vaddr (level + 1) = (cpu_num, level + 1, hi) /\
    pte_key cfg cpu_num vaddr level
    = (cpu_num, level, hi * pte_count cfg + get_offset cfg vaddr level) /\
    0 <= get_offset cfg vaddr level < pte_count cfg.
Proof.
  intros E Hn Hl.
  destruct (construct_valid cfg vm E Hn) as (HL & Hk & Hp & Hfit & _ & _).
  pose proof (get_offset_range cfg vaddr level) as Ho.
  rewrite !pte_key_value.
  assert (Hs1 : shamt cfg level = LOG2_PAGE_SIZE cfg + lg2_pte_count cfg * (level - 1))
    by (apply (shamt_value cfg HL); try lia; nia).
  assert (Hs2 : shamt cfg (level + 1) = shamt cfg level + lg2_pte_count cfg).
  { rewrite Hs1. rewrite (shamt_value cfg HL) by (try lia; nia). lia. }
  assert (Hs0 : 0 <= shamt cfg level) by (rewrite Hs1; nia).
  assert (Hs64 : shamt cfg level + lg2_pte_count cfg <= 64) by (rewrite Hs1; nia).
  eexists. split; [reflexivity |].
  split; [| rewrite Hp; exact Ho].
  f_equal.
  rewrite (get_offset_value cfg HL) by (try lia; nia).
  rewrite Hs2, Hp. remember (shamt cfg level) as s eqn:Es. clear Es Hs1 Hs2.
  remember (lg2_pte_count cfg) as k eqn:Ek. clear Ek Hp Ho.
  rewrite <- Z.shiftl_mul_pow2, <- Z.land_ones, <- Z.shiftr_div_pow2 by lia.
  unfold wrap64, address_bits.
  rewrite <- Z.or_to_plus.
  - bits_deep.
  - bits_deep.
Qed.

(** X11, witness: levels 1 and 2 of one address in the four-level
    configuration with 512 entries in a PTE page. *)
Lemma pte_key_structure_witness :
  exists hi,
    pte_key cfg_4k 0 3735928559 2 = (0, 2, hi) /\
    pte_key cfg_4k 0 3735928559 1 = (0, 1, hi * 512 + get_offset cfg_4k 3735928559 1).
Proof.
  destruct (pte_key_structure cfg_4k (initial_vmem cfg_4k) 0 3735928559 1)
    as (hi & H2 & H1 & _).
  - reflexivity.
  - cbn. lia.
  - cbn. lia.
  - exists hi. split; [exact H2 | exact H1].
Defined.

(** X12: in a reachable state a call of [get_pte_pa] that returns takes
    exactly one page from the pool when the cursor reads zero and none
    otherwise, whether or not it creates an entry.  When the PTE-page size
    equals the page size the cursor always reads zero, so every call takes a
    page. *)
Theorem get_pte_pa_pool_use (cfg : config) (vm vm' : VirtualMemory)
    (cpu_num vaddr level pa pen : Z) :
  lg2_pte cfg <= LOG2_PAGE_SIZE cfg ->
  reachable cfg vm ->
  get_pte_pa cfg vm cpu_num vaddr level = Some (pa, pen, vm') ->
  free_pages vm' = free_pages vm - (if cursor_is_zero cfg vm then 1 else 0) /\
  (lg2_pte cfg = LOG2_PAGE_SIZE cfg -> cursor_is_zero cfg vm = true).
Proof.
  intros Hlg Hr E.
  destruct (reachable_constructed cfg vm Hr) as [vm0 Hc].
  destruct (construct_page_bits cfg vm0 Hc) as (HL & Hlg0 & _).
  assert (HL' : LOG2_PAGE_SIZE cfg <= 64) by lia.
  assert (Hlg' : 0 <= lg2_pte cfg <= LOG2_PAGE_SIZE cfg) by lia.
  destruct (reachable_inv cfg vm Hlg Hr) as [Hpool _ Hcur _ _ _ _ _ _].
  pose proof (cursor_is_zero_value cfg HL' Hlg' vm Hcur) as Hz.
  split.
  - destruct (activate_pte_page cfg vm) as [vm1|] eqn:Ha.
    2:{ rewrite get_pte_pa_abort in E by assumption. discriminate. }
    assert (Hfree : free_pages vm1
                    = free_pages vm - (if cursor_is_zero cfg vm then 1 else 0)).
    { apply activate_Some in Ha as [[Hc0 ->] | (Hc1 & Hlt & ->)].
      - rewrite Hc0. lia.
      - rewrite Hc1. unfold free_pages, with_fresh_pte_page. cbn [next_ppage last_ppage].
        destruct Hpool as (Hpn & Hpl & _).
        assert (Hroom : value (next_ppage vm) + 1 < 2 ^ (address_bits - LOG2_PAGE_SIZE cfg))
          by (destruct Hpl as (_ & _ & ?); lia).
        destruct (is_page_number_incr cfg HL' Hlg' _ Hpn Hroom) as (_ & ->). lia. }
    destruct (page_table vm !! pte_key cfg cpu_num vaddr level) as [p|] eqn:Hk.
    + rewrite (get_pte_pa_hit _ _ _ _ _ _ _ Ha Hk) in E. injection E as <- <- <-. exact Hfree.
    + rewrite (get_pte_pa_miss _ _ _ _ _ _ Ha Hk) in E. injection E as <- <- <-. exact Hfree.
  - intros Heq. rewrite Hz. apply Z.eqb_eq.
    destruct Hcur as (_ & _ & Hv). unfold pte_pages_per_page in Hv.
    rewrite Heq, Z.sub_diag in Hv. change (2 ^ 0) with 1 in Hv. lia.
Qed.

(** X12, witness: the first request on the constructed four-level memory,
    whose PTE pages are whole pages. *)
Lemma get_pte_pa_pool_use_witness :
  exists pa pen vm',
    get_pte_pa cfg_4k (initial_vmem cfg_4k) 0 0 1 = Some (pa, pen, vm') /\
    free_pages vm' = free_pages (initial_vmem cfg_4k) - 1.
Proof.
  destruct (get_pte_pa cfg_4k (initial_vmem cfg_4k) 0 0 1)
    as [[[pa pen] vm']|] eqn:E; [| vm_compute in E; discriminate].
  exists pa, pen, vm'. split; [reflexivity |].
  destruct (get_pte_pa_pool_use cfg_4k (initial_vmem cfg_4k) vm' 0 0 1 pa pen) as (Hf & _).
  - vm_compute. discriminate.
  - apply reach_construct. reflexivity.
  - exact E.
  - exact Hf.
Defined.

